(** * PrusaLink-RZ: the printer state manager

    A shallow embedding of [old_buddy/modules/state_manager.py] (the layered
    printer state, the expectation register, the source attribution, the
    decorated mutators and the poller) and of the single-instance guards of
    [StateManager] and [ConnectAPI], followed by the properties the
    specification states about them. *)

From Stdlib Require Import ZArith Ascii String List Bool Lia.
From stdpp Require Import base decidable countable option gmap strings.

Import ListNotations.
Local Open Scope string_scope.

(** ** Regular expressions

    The patterns of the state manager only use literals, [.], [\d], [*],
    [+], [^], [$], one alternation and two capture groups.  They are kept
    as syntax trees and run by a backtracking matcher that tries the
    alternatives in the order of Python's [re]: leftmost alternative first,
    greedy repetition first. *)
Module Regex.

Inductive regex : Type :=
| Bol                           (* ^ *)
| Eol                           (* $ *)
| Lit (w : string)              (* literal text *)
| AnyChar                       (* . (no DOTALL: not a newline) *)
| Digit                         (* \d on ASCII input *)
| Star (r : regex)              (* r* *)
| Seq (r1 r2 : regex)
| Alt (r1 r2 : regex)           (* r1|r2 *)
| Group (i : nat) (r : regex).  (* the i-th pair of parentheses *)

(** [r+] is [rr*]. *)
Definition Plus (r : regex) : regex := Seq r (Star r).

Definition newline : ascii := "010"%char.

Definition is_newline (c : ascii) : bool := Ascii.eqb c newline.

Definition is_digit (c : ascii) : bool :=
  (48 <=? nat_of_ascii c)%nat && (nat_of_ascii c <=? 57)%nat.

(** [$] without MULTILINE: at the end, or just before a final newline. *)
Definition at_end (s : string) : bool :=
  match s with
  | EmptyString => true
  | String c EmptyString => is_newline c
  | _ => false
  end.

Fixpoint strip_prefix (w s : string) : option string :=
  match w with
  | EmptyString => Some s
  | String a w' =>
      match s with
      | String b s' => if Ascii.eqb a b then strip_prefix w' s' else None
      | EmptyString => None
      end
  end.

Fixpoint take (n : nat) (s : string) : string :=
  match n, s with
  | S n', String c s' => String c (take n' s')
  | _, _ => EmptyString
  end.

(** The text between two positions of the subject, the second given by what
    is left of it. *)
Definition consumed (s rest : string) : string :=
  take (String.length s - String.length rest) s.

(** Capture groups that took part in the match, most recent first. *)
Definition captures : Type := list (nat * string).

Fixpoint group (i : nat) (caps : captures) : option string :=
  match caps with
  | [] => None
  | (j, w) :: caps' => if Nat.eqb i j then Some w else group i caps'
  end.

Section Exec.
Context {R : Type}.

(** The iterations of a star: [step] matches the body once.  An iteration
    must consume something, so [fuel] above the length of the subject is
    never used up. *)
Fixpoint star_loop
    (step : bool -> string -> captures ->
            (bool -> string -> captures -> option R) -> option R)
    (k : bool -> string -> captures -> option R)
    (fuel : nat) (bol : bool) (s : string) (caps : captures) : option R :=
  match fuel with
  | O => k bol s caps
  | S fuel' =>
      match step bol s caps
              (fun b' s' c' =>
                 if (String.length s' <? String.length s)%nat
                 then star_loop step k fuel' b' s' c' else None) with
      | Some m => Some m
      | None => k bol s caps
      end
  end.

(** Continuation-passing matcher.  [bol] tells whether the position is
    the start of the subject, [s] is what is left of it. *)
Fixpoint exec (r : regex) (bol : bool) (s : string) (caps : captures)
         (k : bool -> string -> captures -> option R) {struct r} : option R :=
  match r with
  | Bol => if bol then k bol s caps else None
  | Eol => if at_end s then k bol s caps else None
  | Lit w =>
      match strip_prefix w s with
      | Some s' => k (bol && Nat.eqb (String.length w) 0) s' caps
      | None => None
      end
  | AnyChar =>
      match s with
      | String c s' => if is_newline c then None else k false s' caps
      | EmptyString => None
      end
  | Digit =>
      match s with
      | String c s' => if is_digit c then k false s' caps else None
      | EmptyString => None
      end
  | Seq r1 r2 => exec r1 bol s caps (fun b' s' c' => exec r2 b' s' c' k)
  | Alt r1 r2 =>
      match exec r1 bol s caps k with
      | Some m => Some m
      | None => exec r2 bol s caps k
      end
  | Star r1 => star_loop (exec r1) k (S (String.length s)) bol s caps
  | Group i r1 =>
      exec r1 bol s caps
        (fun b' s' c' => k b' s' ((i, consumed s s') :: c'))
  end.
End Exec.

(** [pattern.match(line)]: the match is tried at the start of the line and
    need not reach its end. *)
Definition re_match (r : regex) (line : string) : option captures :=
  exec r true line [] (fun _ _ caps => Some caps).

Definition matches (r : regex) (line : string) : bool :=
  match re_match r line with Some _ => true | None => false end.

End Regex.

Import Regex.

Definition dquote : ascii := "034"%char.

(** ** The patterns of [state_manager.py] *)

(** [^ok$] *)
Definition OK_REGEX : regex := Seq Bol (Seq (Lit "ok") Eol).
(** [^echo:busy: processing$] *)
Definition BUSY_REGEX : regex := Seq Bol (Seq (Lit "echo:busy: processing") Eol).
(** [^echo:busy: paused for user$] *)
Definition ATTENTION_REGEX : regex :=
  Seq Bol (Seq (Lit "echo:busy: paused for user") Eol).
(** [^// action:paused$] *)
Definition PAUSED_REGEX : regex := Seq Bol (Seq (Lit "// action:paused") Eol).
(** [^// action:resumed$] *)
Definition RESUMED_REGEX : regex := Seq Bol (Seq (Lit "// action:resumed") Eol).
(** [^// action:cancel$] *)
Definition CANCEL_REGEX : regex := Seq Bol (Seq (Lit "// action:cancel") Eol).
(** [^echo:enqueing \"M24\"$], the quotes being literal characters *)
Definition START_PRINT_REGEX : regex :=
  Seq Bol (Seq (Lit ("echo:enqueing " +:+ String dquote ("M24" +:+ String dquote "")))
               Eol).
(** [^Done printing file$] *)
Definition PRINT_DONE_REGEX : regex := Seq Bol (Seq (Lit "Done printing file") Eol).
(** [^Error:Printer stopped due to errors. Fix the error and use M999 to restart.*]
    with both dots unescaped: the first stands for any character, the second
    is under the star. *)
Definition ERROR_REGEX : regex :=
  Seq Bol
    (Seq (Lit "Error:Printer stopped due to errors")
       (Seq AnyChar
          (Seq (Lit " Fix the error and use M999 to restart") (Star AnyChar)))).

(** [^(Not SD printing)$|^(\d+:\d+)$] *)
Definition SD_PRINTING_REGEX : regex :=
  Alt (Seq Bol (Seq (Group 1 (Lit "Not SD printing")) Eol))
      (Seq Bol (Seq (Group 2 (Seq (Plus Digit) (Seq (Lit ":") (Plus Digit)))) Eol)).


(** ** States and sources *)

(** Modelled from the spec: the enumeration [States] is imported from a
    module that is not among the sources; its variants are the base, the
    printing and the override states that the specification lists. *)
Inductive States : Type :=
| READY | BUSY | PRINTING | PAUSED | FINISHED | ATTENTION | ERROR.

(** Modelled from the spec: the enumeration [Sources] is imported from the
    same missing module; its variants are the ones the specification
    lists. *)
Inductive Sources : Type := USER | MARLIN | CONNECT | WUI.

#[global] Instance States_eq_dec : EqDecision States.
Proof. solve_decision. Defined.

#[global] Instance Sources_eq_dec : EqDecision Sources.
Proof. solve_decision. Defined.

Definition States_to_nat (x : States) : nat :=
  match x with
  | READY => 0 | BUSY => 1 | PRINTING => 2 | PAUSED => 3
  | FINISHED => 4 | ATTENTION => 5 | ERROR => 6
  end.

Definition States_of_nat (n : nat) : option States :=
  match n with
  | 0 => Some READY | 1 => Some BUSY | 2 => Some PRINTING | 3 => Some PAUSED
  | 4 => Some FINISHED | 5 => Some ATTENTION | 6 => Some ERROR
  | _ => None
  end.

#[global] Program Instance States_countable : Countable States :=
  inj_countable States_to_nat States_of_nat _.
Next Obligation. by intros []. Qed.

(** [source.name] *)
Definition Sources_name (x : Sources) : string :=
  match x with
  | USER => "USER" | MARLIN => "MARLIN" | CONNECT => "CONNECT" | WUI => "WUI"
  end.

(** [PRINTING_STATES] *)
Definition PRINTING_STATES : gset States := {[ PRINTING; PAUSED; FINISHED ]}.

(** Python exceptions that the modelled code can raise. *)
Inductive exn : Type := AttributeError | TimeoutError | AssertionError.

#[global] Instance exn_eq_dec : EqDecision exn.
Proof. solve_decision. Defined.

Inductive outcome (A : Type) : Type :=
| Returned (a : A)
| Raised (e : exn).
Arguments Returned {A} a.
Arguments Raised {A} e.

Section Manager.

(** The response of the remote service that an expectation may carry, and
    [old_buddy.util.get_command_id], which reads the command identifier off
    it.  Neither is among the sources: both are parameters, and the helper
    is taken to give an identifier for every response. *)
Context {Response : Type}.
Context (get_command_id : Response -> Z).

(** [class StateChange]: a missing dictionary argument becomes the empty
    dictionary. *)
Record StateChange : Type := mkStateChange {
  api_response : option Response;
  to_states : gmap States (option Sources);
  from_states : gmap States (option Sources);
  default_source : option Sources
}.

(** The attributes of a [StateManager] that the state logic reads or
    writes. *)
Record StateManager : Type := mkStateManager {
  base_state : States;
  printing_state : option States;
  override_state : option States;
  internal_busy : bool;
  last_state : States;
  current_state : States;
  expected_state_change : option StateChange
}.

Definition set_base_state (v : States) (s : StateManager) : StateManager :=
  mkStateManager v (printing_state s) (override_state s) (internal_busy s)
    (last_state s) (current_state s) (expected_state_change s).
Definition set_printing_state (v : option States) (s : StateManager) : StateManager :=
  mkStateManager (base_state s) v (override_state s) (internal_busy s)
    (last_state s) (current_state s) (expected_state_change s).
Definition set_override_state (v : option States) (s : StateManager) : StateManager :=
  mkStateManager (base_state s) (printing_state s) v (internal_busy s)
    (last_state s) (current_state s) (expected_state_change s).
Definition set_internal_busy (v : bool) (s : StateManager) : StateManager :=
  mkStateManager (base_state s) (printing_state s) (override_state s) v
    (last_state s) (current_state s) (expected_state_change s).
Definition set_last_state (v : States) (s : StateManager) : StateManager :=
  mkStateManager (base_state s) (printing_state s) (override_state s)
    (internal_busy s) v (current_state s) (expected_state_change s).
Definition set_current_state (v : States) (s : StateManager) : StateManager :=
  mkStateManager (base_state s) (printing_state s) (override_state s)
    (internal_busy s) (last_state s) v (expected_state_change s).
Definition set_expected_state_change (v : option StateChange) (s : StateManager)
  : StateManager :=
  mkStateManager (base_state s) (printing_state s) (override_state s)
    (internal_busy s) (last_state s) (current_state s) v.

(** What a run leaves behind, in order: the lines written to the printer,
    the calls of the progress inserter and the [state_changed] signals,
    each with the sender as it is when the signal is sent (the receiver
    reads [sender.current_state]). *)
Inductive event : Type :=
| SerialWrite (message : string)
| InsertProgress
| StateChangedSignal (sender : StateManager) (command_id : option Z)
    (source : option string).

(** ** Methods as state transformers

    A method takes the manager, and leaves the manager as mutated, the
    events performed and either a result or the exception raised.  What was
    mutated before an exception stays mutated. *)
Record run (A : Type) : Type := mkRun {
  final : StateManager;
  trace : list event;
  result : outcome A
}.
Arguments mkRun {A} _ _ _.
Arguments final {A} _.
Arguments trace {A} _.
Arguments result {A} _.

Definition M (A : Type) : Type := StateManager -> run A.

Definition ret {A} (a : A) : M A := fun s => mkRun s [] (Returned a).

Definition raise {A} (e : exn) : M A := fun s => mkRun s [] (Raised e).

Definition bind {A B} (m : M A) (f : A -> M B) : M B :=
  fun s =>
    match m s with
    | mkRun s1 t1 (Returned a) =>
        match f a s1 with
        | mkRun s2 t2 r2 => mkRun s2 (t1 ++ t2)%list r2
        end
    | mkRun s1 t1 (Raised e) => mkRun s1 t1 (Raised e)
    end.

Definition gets {A} (f : StateManager -> A) : M A :=
  fun s => mkRun s [] (Returned (f s)).

Definition modify (f : StateManager -> StateManager) : M unit :=
  fun s => mkRun (f s) [] (Returned tt).

Definition emit (e : event) : M unit := fun s => mkRun s [e] (Returned tt).

(** [try: body / except E: handler / else: orelse]: only [body] is
    protected. *)
Definition try_except_else {A B} (body : M A) (caught : exn)
    (handler : M B) (orelse : A -> M B) : M B :=
  fun s =>
    match body s with
    | mkRun s1 t1 (Returned a) =>
        match orelse a s1 with
        | mkRun s2 t2 r2 => mkRun s2 (t1 ++ t2)%list r2
        end
    | mkRun s1 t1 (Raised e) =>
        if decide (e = caught) then
          match handler s1 with
          | mkRun s2 t2 r2 => mkRun s2 (t1 ++ t2)%list r2
          end
        else mkRun s1 t1 (Raised e)
    end.


Notation "x <- m ;; k" := (bind m (fun x => k))
  (at level 100, m at next level, right associativity).
Notation "m ;; k" := (bind m (fun _ => k))
  (at level 100, right associativity).

(** ** The state manager *)

(** [StateManager.get_state] *)
Definition get_state (self : StateManager) : States :=
  match override_state self with
  | Some override => override
  | None =>
      match printing_state self with
      | Some printing => printing
      | None => base_state self
      end
  end.

(** [StateManager.is_busy] *)
Definition is_busy (self : StateManager) : bool :=
  internal_busy self || bool_decide (base_state self = BUSY).

(** [StateManager.expect_change] *)
Definition expect_change (change : StateChange) : M unit :=
  modify (set_expected_state_change (Some change)).

(** [StateManager.stop_expecting_change] *)
Definition stop_expecting_change : M unit :=
  modify (set_expected_state_change None).

(** [key in dictionary] *)
Definition contains (d : gmap States (option Sources)) (key : States) : bool :=
  bool_decide (is_Some (d !! key)).

(** [dictionary[key]] after [key in dictionary] was tested, the default of
    the variable otherwise. *)
Definition item_or_None (d : gmap States (option Sources)) (key : States)
  : option Sources :=
  match d !! key with
  | Some v => v
  | None => None
  end.

(** [StateManager.is_expected] *)
Definition is_expected (self : StateManager) : bool :=
  match expected_state_change self with
  | Some state_change =>
      let expected_to := contains (to_states state_change) (current_state self) in
      let expected_from := contains (from_states state_change) (last_state self) in
      let has_default_source := bool_decide (is_Some (default_source state_change)) in
      expected_to || expected_from || has_default_source
  | None => false
  end.

(** [next(item for item in items if item is not None)], with [None] for
    [StopIteration]. *)
Fixpoint next_not_None (items : list (option Sources)) : option Sources :=
  match items with
  | [] => None
  | Some item :: _ => Some item
  | None :: items' => next_not_None items'
  end.

(** [StateManager.expected_source] *)
Definition expected_source (self : StateManager) : option Sources :=
  match expected_state_change self with
  | None => None
  | Some state_change =>
      let source_from :=
        if contains (from_states state_change) (last_state self)
        then item_or_None (from_states state_change) (last_state self)
        else None in
      let source_to :=
        if contains (to_states state_change) (current_state self)
        then item_or_None (to_states state_change) (current_state self)
        else None in
      let source :=
        if bool_decide (is_Some source_from) && bool_decide (is_Some source_to)
           && bool_decide (source_to <> source_from)
        then source_from
        else next_not_None [source_from; source_to] in
      match source with
      | None => default_source state_change
      | Some _ => source
      end
  end.

(** [self.state_changed.send(self, command_id=..., source=...)] *)
Definition send_state_changed (command_id : option Z) (source : option string)
  : M unit :=
  fun self => emit (StateChangedSignal self command_id source) self.

(** [StateManager.state_may_have_changed] *)
Definition state_may_have_changed : M unit :=
  state <- gets get_state ;;
  current <- gets current_state ;;
  if bool_decide (state <> current) then
    modify (set_last_state current) ;;
    state <- gets get_state ;;
    modify (set_current_state state) ;;
    expected <- gets is_expected ;;
    attribution <-
      (if expected : bool then
         change <- gets expected_state_change ;;
         match change with
         | None => raise AttributeError
         | Some change =>
             let command_id :=
               match api_response change with
               | Some response => Some (get_command_id response)
               | None => None
               end in
             source <- gets expected_source ;;
             match source with
             | Some source => ret (command_id, Some (Sources_name source))
             | None => raise AttributeError   (* None has no .name *)
             end
         end
       else ret (None, None)) ;;
    modify (set_expected_state_change None) ;;
    send_state_changed (fst attribution) (snd attribution)
  else ret tt.

(** The decorator [state_influencer(state_change)] applied to [func]. *)
Definition state_influencer (state_change : option StateChange) (func : M unit)
  : M unit :=
  expected <- gets expected_state_change ;;
  let has_set_expected_change :=
    match expected, state_change with
    | None, Some _ => true
    | _, _ => false
    end in
  match expected, state_change with
  | None, Some change => expect_change change
  | _, _ => ret tt
  end ;;
  func ;;
  state_may_have_changed ;;
  if has_set_expected_change then stop_expecting_change else ret tt.

(** [StateChange(to_states=..., from_states=..., default_source=...)] with no
    [api_response]. *)
Definition expectation (to_ from_ : list (States * option Sources))
    (default : option Sources) : StateChange :=
  mkStateChange None (list_to_map to_) (list_to_map from_) default.

(** *** State changing methods *)

Definition printing : M unit :=
  state_influencer (Some (expectation [(PRINTING, Some USER)] [] None))
    (printing_state <- gets printing_state ;;
     if bool_decide (printing_state = None)
     then modify (set_printing_state (Some PRINTING)) else ret tt).

Definition not_printing : M unit :=
  state_influencer
    (Some (expectation []
             [(PRINTING, Some MARLIN); (PAUSED, Some MARLIN); (FINISHED, Some MARLIN)]
             None))
    (printing_state <- gets printing_state ;;
     if bool_decide (printing_state <> None)
     then modify (set_printing_state None) else ret tt).

Definition finished : M unit :=
  state_influencer (Some (expectation [(FINISHED, Some MARLIN)] [] None))
    (printing_state <- gets printing_state ;;
     if bool_decide (printing_state = Some PRINTING)
     then modify (set_printing_state (Some FINISHED)) else ret tt).

Definition busy : M unit :=
  state_influencer (Some (expectation [(BUSY, Some MARLIN)] [] None))
    (base_state <- gets base_state ;;
     if bool_decide (base_state = READY)
     then modify (set_base_state BUSY) else ret tt).

Definition paused : M unit :=
  state_influencer (Some (expectation [(PAUSED, Some USER)] [] None))
    (printing_state <- gets printing_state ;;
     if bool_decide (printing_state = Some PRINTING)
     then modify (set_printing_state (Some PAUSED)) else ret tt).

Definition resumed : M unit :=
  state_influencer (Some (expectation [(PRINTING, Some USER)] [] None))
    (printing_state <- gets printing_state ;;
     if bool_decide (printing_state = Some PAUSED)
     then modify (set_printing_state (Some PRINTING)) else ret tt).

Definition ok : M unit :=
  state_influencer
    (Some (expectation [(READY, Some MARLIN)]
             [(ATTENTION, Some USER); (ERROR, Some USER)] None))
    (override_state <- gets override_state ;;
     (if bool_decide (override_state <> None)
      then modify (set_override_state None) ;; state_may_have_changed
      else ret tt) ;;
     printing_state <- gets printing_state ;;
     (if bool_decide (printing_state = Some FINISHED)
      then modify (set_printing_state None) else ret tt) ;;
     base_state <- gets base_state ;;
     if bool_decide (base_state = BUSY)
     then modify (set_base_state READY) else ret tt).

Definition attention : M unit :=
  state_influencer (Some (expectation [(ATTENTION, Some USER)] [] None))
    (modify (set_override_state (Some ATTENTION))).

Definition error : M unit :=
  state_influencer (Some (expectation [(ERROR, Some WUI)] [] None))
    (modify (set_override_state (Some ERROR))).

(** *** The serial line and the poller *)

(** Modelled from the spec: [Serial.write(message)] without a pattern
    transmits the line and expects no response. *)
Definition serial_write (message : string) : M unit :=
  emit (SerialWrite message).

Fixpoint first_match (pattern : regex) (lines : list string) : option captures :=
  match lines with
  | [] => None
  | line :: lines' =>
      match re_match pattern line with
      | Some m => Some m
      | None => first_match pattern lines'
      end
  end.

(** Modelled from the spec: [Serial.write(message, pattern)] transmits the
    line and waits for the next line that matches the pattern; it returns
    the match, or fails with a timeout when no such line comes in time.
    [lines] are the lines that come in time. *)
Definition serial_write_match (message : string) (pattern : regex)
    (lines : list string) : M captures :=
  emit (SerialWrite message) ;;
  match first_match pattern lines with
  | Some m => ret m
  | None => raise TimeoutError
  end.

(** Modelled from the spec: [telemetry_inserters.insert_progress(...).progress]
    requests the progress of the print; [reply] is the percentage the
    printer tells, if it tells one in time. *)
Definition insert_progress (reply : option Z) : M Z :=
  emit InsertProgress ;;
  match reply with
  | Some progress => ret progress
  | None => raise TimeoutError
  end.

(** [match.groups()] of a pattern with two groups *)
Definition groups (m : captures) : option string * option string :=
  (group 1 m, group 2 m).

(** [StateManager.update_state], given what the printer answers. *)
Definition update_state (progress_reply : option Z) (lines : list string)
  : M unit :=
  busy_now <- gets is_busy ;;
  if busy_now : bool then serial_write "PRUSA PING"
  else
    printing_first <- gets printing_state ;;
    (if bool_decide (printing_first = Some PRINTING) then
       try_except_else (insert_progress progress_reply) TimeoutError (ret tt)
         (fun progress =>
            if (progress =? 100)%Z then
              expect_change (expectation [(FINISHED, Some MARLIN)] [] None) ;;
              finished
            else ret tt)
     else ret tt) ;;
    try_except_else (serial_write_match "M27" SD_PRINTING_REGEX lines)
      TimeoutError (ret tt)
      (fun m =>
         printing_then <- gets printing_state ;;
         if bool_decide (is_Some (fst (groups m)))
            && bool_decide (printing_then <> Some PAUSED)
         then not_printing
         else printing).

(** The handlers that [StateManager.__init__] registers, in the order of
    registration. *)
Definition output_handlers : list (regex * M unit) :=
  [ (OK_REGEX, ok);
    (BUSY_REGEX, busy);
    (ATTENTION_REGEX, attention);
    (PAUSED_REGEX, paused);
    (RESUMED_REGEX, resumed);
    (CANCEL_REGEX, not_printing);
    (START_PRINT_REGEX, printing);
    (PRINT_DONE_REGEX, finished);
    (ERROR_REGEX, error) ].

(** Modelled from the spec: the dispatcher gives each received line to every
    handler whose pattern matches it, in the order of registration. *)
Fixpoint dispatch (handlers : list (regex * M unit)) (line : string) : M unit :=
  match handlers with
  | [] => ret tt
  | (pattern, handler) :: handlers' =>
      (if matches pattern line then handler else ret tt) ;;
      dispatch handlers' line
  end.

Definition receive_line (line : string) : M unit :=
  dispatch output_handlers line.

(** *** The manager at work

    What reaches a manager from outside: a line of the printer, a tick of
    the poller with the printer's answers, a command handler that installs
    or withdraws an expectation, and a component that flips the busy
    flag. *)
Inductive input : Type :=
| Line (line : string)
| Tick (progress_reply : option Z) (lines : list string)
| ExpectChange (change : StateChange)
| StopExpectingChange
| SetInternalBusy (flag : bool).

Definition step (i : input) : M unit :=
  match i with
  | Line line => receive_line line
  | Tick progress_reply lines => update_state progress_reply lines
  | ExpectChange change => expect_change change
  | StopExpectingChange => stop_expecting_change
  | SetInternalBusy flag => modify (set_internal_busy flag)
  end.

(** A history of inputs; the manager lives on as it is left when a call
    raises. *)
Fixpoint run_inputs (inputs : list input) (self : StateManager)
  : StateManager * list event :=
  match inputs with
  | [] => (self, [])
  | i :: inputs' =>
      let r := step i self in
      let '(self', events) := run_inputs inputs' (final r) in
      (self', (trace r ++ events)%list)
  end.

(** *** Construction and the single-instance guards *)

(** The class attributes [StateManager.instance] and [ConnectAPI.instance];
    a non-[None] value would be a reference to an object. *)
Record Classes : Type := mkClasses {
  StateManager_instance : option nat;
  ConnectAPI_instance : option nat
}.

(** Both class bodies say [instance = None]. *)
Definition class_definitions : Classes := mkClasses None None.

(** The attributes that [StateManager.__init__] gives a new manager. *)
Definition new_manager : StateManager :=
  let self := mkStateManager READY None None false READY READY None in
  let self := set_last_state (get_state self) self in
  let self := set_current_state (get_state self) self in
  set_expected_state_change None self.

(** [StateManager.__init__]: [self.instance] on a new object reads the
    class attribute; nothing is stored into it. *)
Definition StateManager_init (classes : Classes) : Classes * outcome StateManager :=
  match StateManager_instance classes with
  | Some _ => (classes, Raised AssertionError)
  | None => (classes, Returned new_manager)
  end.

Record ConnectAPI : Type := mkConnectAPI {
  address : string;
  port : string;
  base_url : string;
  printer_token : string
}.

(** [ConnectAPI.__init__] *)
Definition ConnectAPI_init (address port token : string) (tls : bool)
    (classes : Classes) : Classes * outcome ConnectAPI :=
  match ConnectAPI_instance classes with
  | Some _ => (classes, Raised AssertionError)
  | None =>
      let protocol := if tls then "https" else "http" in
      (classes,
       Returned (mkConnectAPI address port
                   (protocol +:+ "://" +:+ address +:+ ":" +:+ port) token))
  end.

Inductive construction : Type :=
| NewStateManager
| NewConnectAPI (address port token : string) (tls : bool).

Inductive constructed : Type :=
| AStateManager (o : outcome StateManager)
| AConnectAPI (o : outcome ConnectAPI).

Definition construct (c : construction) (classes : Classes) : Classes * constructed :=
  match c with
  | NewStateManager =>
      let '(classes', o) := StateManager_init classes in (classes', AStateManager o)
  | NewConnectAPI address port token tls =>
      let '(classes', o) := ConnectAPI_init address port token tls classes in
      (classes', AConnectAPI o)
  end.

Fixpoint construct_all (cs : list construction) (classes : Classes)
  : Classes * list constructed :=
  match cs with
  | [] => (classes, [])
  | c :: cs' =>
      let '(classes', o) := construct c classes in
      let '(classes'', os) := construct_all cs' classes' in
      (classes'', o :: os)
  end.

Definition raised_AssertionError (c : constructed) : bool :=
  match c with
  | AStateManager (Raised AssertionError) => true
  | AConnectAPI (Raised AssertionError) => true
  | _ => false
  end.


(** ** Vocabulary of the properties *)

Definition synced (self : StateManager) : Prop :=
  current_state self = get_state self.

Definition signal_synced (e : event) : Prop :=
  match e with
  | StateChangedSignal sender _ _ => synced sender
  | _ => True
  end.

Definition keeps_sync {A} (m : M A) : Prop :=
  forall self, synced self ->
    synced (final (m self)) /\ Forall signal_synced (trace (m self)).

Definition makes_sync {A} (m : M A) : Prop :=
  forall self,
    synced (final (m self)) /\ Forall signal_synced (trace (m self)).

(** A step whose signals are in sync and which, if it raises, leaves the
    manager in sync: what may come before [state_may_have_changed]. *)
Definition raises_in_sync {A} (m : M A) : Prop :=
  forall self,
    Forall signal_synced (trace (m self)) /\
    (forall e, result (m self) = Raised e -> synced (final (m self))).

(** The source that a dictionary of an expectation defines for a state:
    there is an entry and it is not [None]. *)
Definition defined_source (d : gmap States (option Sources)) (key : States)
  : option Sources :=
  match d !! key with
  | Some (Some source) => Some source
  | _ => None
  end.

(** If both sources are defined and differ, the one of [from_states]; else
    whichever is defined; else the default source. *)
Definition attributed_source (change : StateChange) (last curr : States)
  : option Sources :=
  match defined_source (from_states change) last,
        defined_source (to_states change) curr with
  | Some src_from, Some src_to =>
      if decide (src_from = src_to) then Some src_to else Some src_from
  | Some src_from, None => Some src_from
  | None, Some src_to => Some src_to
  | None, None => default_source change
  end.

(** A change is expected if [curr] is a key of [to_states], or [last] is a
    key of [from_states], or the default source is set. *)
Definition classified_expected (change : StateChange) (last curr : States) : bool :=
  bool_decide (is_Some (to_states change !! curr))
  || bool_decide (is_Some (from_states change !! last))
  || bool_decide (is_Some (default_source change)).

(** The manager once a change of the composed state has been processed. *)
Definition after_change (self : StateManager) : StateManager :=
  set_expected_state_change None
    (set_current_state (get_state self) (set_last_state (current_state self) self)).

(** Every change that the expectation classifies as expected gets a source
    from it. *)
Definition sourced (change : StateChange) : Prop :=
  forall last curr,
    classified_expected change last curr = true ->
    is_Some (attributed_source change last curr).

Definition expectation_sourced (self : StateManager) : Prop :=
  forall change, expected_state_change self = Some change -> sourced change.

(** The three slots. *)
Definition slots (self : StateManager) : States * option States * option States :=
  (base_state self, printing_state self, override_state self).

Definition returns_if_sourced {A} (m : M A) : Prop :=
  forall self, expectation_sourced self ->
    exists a self' events,
      m self = mkRun self' events (Returned a) /\ expectation_sourced self'.

(** The state changing methods, with their default expectations. *)
Definition mutators : list (M unit) :=
  [printing; not_printing; finished; busy; paused; resumed; ok; attention; error].

Definition signal_cleared (e : event) : Prop :=
  match e with
  | StateChangedSignal sender _ _ => expected_state_change sender = None
  | _ => True
  end.

Definition signals_cleared {A} (m : M A) : Prop :=
  forall self, Forall signal_cleared (trace (m self)).

Definition hoare {A} (P : StateManager -> Prop) (m : M A)
    (Q : A -> StateManager -> Prop) : Prop :=
  forall self, P self ->
    exists a self' events, m self = mkRun self' events (Returned a) /\ Q a self'.

(** The invariant of a run: the expectation is sourced and the slots are
    [x]. *)
Definition sourced_with_slots (x : States * option States * option States)
    (self : StateManager) : Prop :=
  expectation_sourced self /\ slots self = x.

Definition keeps_slots {A} (m : M A) : Prop :=
  forall self, slots (final (m self)) = slots self.

Definition slots_to {A} (g : States * option States * option States ->
                             States * option States * option States)
    (m : M A) : Prop :=
  forall self, slots (final (m self)) = g (slots self).

Definition paused_slots (x : States * option States * option States)
  : States * option States * option States :=
  let '(base, printing, override) := x in
  (base, if decide (printing = Some PRINTING) then Some PAUSED else printing,
   override).

Definition resumed_slots (x : States * option States * option States)
  : States * option States * option States :=
  let '(base, printing, override) := x in
  (base, if decide (printing = Some PAUSED) then Some PRINTING else printing,
   override).

Definition keeps_override {A} (m : M A) : Prop :=
  forall self, override_state (final (m self)) = override_state self.

(** What [ok] makes of the three slots. *)
Definition ok_slots (x : States * option States * option States)
  : States * option States * option States :=
  let '(base, printing, _) := x in
  (if decide (base = BUSY) then READY else base,
   if decide (printing = Some FINISHED) then None else printing,
   None).

(** The error pattern as the specification gives it:
    [^Error:Printer stopped due to errors\..*] *)
Definition SPEC_ERROR_REGEX : regex :=
  Seq Bol (Seq (Lit "Error:Printer stopped due to errors.") (Star AnyChar)).

(** [StateChange(to_states={States.PRINTING: None})] *)
Definition unsourced_change : StateChange :=
  expectation [(PRINTING, None)] [] None.

Definition START_PRINT_LINE : string :=
  "echo:enqueing " +:+ String dquote ("M24" +:+ String dquote "").

(** The signals of a trace, as the receiver reads them: the current state
    of the sender, the command identifier and the source. *)
Fixpoint signals (events : list event) : list (States * option Z * option string) :=
  match events with
  | [] => []
  | StateChangedSignal sender command_id source :: events' =>
      (current_state sender, command_id, source) :: signals events'
  | _ :: events' => signals events'
  end.

(** ** Managers of the scenarios *)

(** A print in progress. *)
Definition printing_manager : StateManager :=
  mkStateManager READY (Some PRINTING) None false READY PRINTING None.

(** Modelled from the spec: the command handlers are not among the
    sources; before it pokes the printer a handler installs an expectation
    with the response that carries the command and the default source
    [CONNECT]. *)
Definition command_expectation (response : Response) : StateChange :=
  mkStateChange (Some response) ∅ ∅ (Some CONNECT).

(** A paused print whose printing slot has just been set back to
    [PRINTING] on behalf of a remote command. *)
Definition resuming_manager (response : Response) : StateManager :=
  mkStateManager READY (Some PRINTING) None false PRINTING PAUSED
    (Some (command_expectation response)).

(** A print that appears while only the end of one is expected. *)
Definition surprised_manager : StateManager :=
  mkStateManager READY (Some PRINTING) None false READY READY
    (Some (expectation [(FINISHED, Some MARLIN)] [] None)).

(** The printer waits for the user. *)
Definition attention_manager : StateManager :=
  mkStateManager READY None (Some ATTENTION) false READY ATTENTION None.

(** The print is done and the printer has not yet said [ok]. *)
Definition finished_manager : StateManager :=
  mkStateManager READY (Some FINISHED) None false PRINTING FINISHED None.

(** A busy printer in error after a finished print. *)
Definition failed_manager : StateManager :=
  mkStateManager BUSY (Some FINISHED) (Some ERROR) false FINISHED ERROR None.

(** A paused print. *)
Definition paused_manager : StateManager :=
  mkStateManager READY (Some PAUSED) None false PRINTING PAUSED None.

(** The printer said that it is busy. *)
Definition busy_manager : StateManager :=
  mkStateManager BUSY None None false READY BUSY None.

(** The whole message of the firmware, and a message that only begins like
    it. *)
Definition ERROR_LINE : string :=
  "Error:Printer stopped due to errors. Fix the error and use M999 to restart. (Temperature is reset. Set it after restarting)".

Definition OTHER_ERROR_LINE : string :=
  "Error:Printer stopped due to errors. Supervision required.".

(** ** Vocabulary of further properties *)

(** The values that the code ever stores in the three slots. *)
Definition slots_well_formed (x : States * option States * option States) : Prop :=
  let '(base, printing, override) := x in
  (base = READY \/ base = BUSY) /\
  (forall p, printing = Some p -> p ∈ PRINTING_STATES) /\
  (forall o, override = Some o -> o = ATTENTION \/ o = ERROR).

Definition well_formed (self : StateManager) : Prop :=
  slots_well_formed (slots self).

(** A property of the final manager that a method keeps, whatever its
    outcome. *)
Definition preserves {A} (P : StateManager -> Prop) (m : M A) : Prop :=
  forall self, P self -> P (final (m self)).

(** A property of every event of a method. *)
Definition events_satisfy {A} (P : event -> Prop) (m : M A) : Prop :=
  forall self, Forall P (trace (m self)).

(** A signal reports a change: the state before differs from the state
    after. *)
Definition signal_is_change (e : event) : Prop :=
  match e with
  | StateChangedSignal sender _ _ => last_state sender <> current_state sender
  | _ => True
  end.

(** What the other methods make of the three slots. *)
Definition printing_slots (x : States * option States * option States)
  : States * option States * option States :=
  let '(base, printing, override) := x in
  (base, if decide (printing = None) then Some PRINTING else printing, override).

Definition not_printing_slots (x : States * option States * option States)
  : States * option States * option States :=
  let '(base, _, override) := x in (base, None, override).

Definition finished_slots (x : States * option States * option States)
  : States * option States * option States :=
  let '(base, printing, override) := x in
  (base, if decide (printing = Some PRINTING) then Some FINISHED else printing,
   override).

Definition busy_slots (x : States * option States * option States)
  : States * option States * option States :=
  let '(base, printing, override) := x in
  (if decide (base = READY) then BUSY else base, printing, override).

Definition attention_slots (x : States * option States * option States)
  : States * option States * option States :=
  let '(base, printing, _) := x in (base, printing, Some ATTENTION).

Definition error_slots (x : States * option States * option States)
  : States * option States * option States :=
  let '(base, printing, _) := x in (base, printing, Some ERROR).

(** The state changing methods with what each makes of the slots. *)
Definition mutators_with_slots
  : list (M unit * (States * option States * option States ->
                    States * option States * option States)) :=
  [ (printing, printing_slots); (not_printing, not_printing_slots);
    (finished, finished_slots); (busy, busy_slots); (paused, paused_slots);
    (resumed, resumed_slots); (ok, ok_slots); (attention, attention_slots);
    (error, error_slots) ].

(** The methods that only touch the base and the printing slot. *)
Definition masked_mutators : list (M unit) :=
  [printing; not_printing; finished; busy; paused; resumed].

(** The state before and the state after of each signal of a trace. *)
Fixpoint changes (events : list event) : list (States * States) :=
  match events with
  | [] => []
  | StateChangedSignal sender _ _ :: events' =>
      (last_state sender, current_state sender) :: changes events'
  | _ :: events' => changes events'
  end.

(** The changes lead from [first] to [last], each starting where the one
    before ended and none leading nowhere. *)
Fixpoint chain (first : States) (l : list (States * States)) (last : States) : Prop :=
  match l with
  | [] => first = last
  | (before, after) :: l' => before = first /\ before <> after /\ chain after l' last
  end.

(** A method that returns when the expectation is sourced, and whose
    signals are a chain from the stored state at entry to the stored state
    at exit. *)
Definition linked {A} (m : M A) : Prop :=
  forall self, expectation_sourced self ->
    exists a self' events,
      m self = mkRun self' events (Returned a) /\
      expectation_sourced self' /\
      chain (current_state self) (changes events) (current_state self').

(** An input that installs no expectation without a source. *)
Definition input_sourced (i : input) : Prop :=
  match i with
  | ExpectChange change => sourced change
  | _ => True
  end.

(** The part of [ok] that follows the handling of the override. *)
Definition ok_rest : M unit :=
  printing_state <- gets printing_state ;;
  (if bool_decide (printing_state = Some FINISHED)
   then modify (set_printing_state None) else ret tt) ;;
  base_state <- gets base_state ;;
  if bool_decide (base_state = BUSY)
  then modify (set_base_state READY) else ret tt.

(** At most one signal, and one without command and source when nothing is
    expected. *)
Definition one_signal_at_most (expected : option StateChange)
    (l : list (States * option Z * option string)) : Prop :=
  l = [] \/
  exists state command_id source,
    l = [(state, command_id, source)] /\
    (expected = None -> command_id = None /\ source = None).

(** The outcome of each call of a history. *)
Fixpoint run_results (inputs : list input) (self : StateManager)
  : list (outcome unit) :=
  match inputs with
  | [] => []
  | i :: inputs' =>
      let r := step i self in
      result r :: run_results inputs' (final r)
  end.

(** A method that returns, or raises the exception that its caller
    catches, when the expectation is sourced, with signals that are a
    chain. *)
Definition linked_or_raises {A} (caught : exn) (m : M A) : Prop :=
  forall self, expectation_sourced self ->
    exists r self' events,
      m self = mkRun self' events r /\
      (r = Raised caught \/ exists a, r = Returned a) /\
      expectation_sourced self' /\
      chain (current_state self) (changes events) (current_state self').

(** A pattern without parentheses. *)
Fixpoint capture_free (r : regex) : bool :=
  match r with
  | Group _ _ => false
  | Star r1 => capture_free r1
  | Seq r1 r2 | Alt r1 r2 => capture_free r1 && capture_free r2
  | _ => true
  end.

(** ** The client of the remote service ([connect_api.py]) *)

(** A value of a request body. *)
Inductive json : Type :=
| JString (s : string)
| JNumber (n : Z).

(** What a client does, in order: a POST of the session, with the
    [Printer-Token] header of the session and the [Timestamp] header of the
    request, and the [connection_error] signal. *)
Inductive api_event : Type :=
| Post (url token : string) (timestamp : Z) (body : list (string * json))
| ConnectionErrorSignal (path : string) (body : list (string * json)).

(** A call returns or raises [RequestException]. *)
Inductive api_outcome (A : Type) : Type :=
| ApiReturned (a : A)
| RaisedRequestException.
Arguments ApiReturned {A} a.
Arguments RaisedRequestException {A}.

(** [ConnectAPI.send_dict]; [now] is [int(time())], [reply] is what the
    session answers, with [None] for a [RequestException]. *)
Definition send_dict (self : ConnectAPI) (path : string)
    (json_dict : list (string * json)) (now : Z) (reply : option Response)
  : list api_event * api_outcome Response :=
  let post := Post (base_url self +:+ path) (printer_token self) now json_dict in
  match reply with
  | None => ([post; ConnectionErrorSignal path json_dict], RaisedRequestException)
  | Some response => ([post], ApiReturned response)
  end.

(** Modelled from the spec: the model class [Event] is not among the
    sources; an event has the kind and the optional fields that
    [emit_event] passes on (the file tree is left out). *)
Record Event : Type := mkEvent {
  event_kind : string;
  event_command_id : option Z;
  event_reason : option string;
  event_state : option string;
  event_source : option string;
  event_root : option string
}.

Definition field {A} (key : string) (to_json : A -> json) (value : option A)
  : list (string * json) :=
  match value with
  | Some v => [(key, to_json v)]
  | None => []
  end.

(** Modelled from the spec: [model.dict(exclude_none=True)] of an [Event],
    the fields that are not [None], in the order of declaration. *)
Definition Event_dict (e : Event) : list (string * json) :=
  ([("event", JString (event_kind e))]
   ++ field "command_id" JNumber (event_command_id e)
   ++ field "reason" JString (event_reason e)
   ++ field "state" JString (event_state e)
   ++ field "source" JString (event_source e)
   ++ field "root" JString (event_root e))%list.

(** [ConnectAPI.send_model] for an [Event] *)
Definition send_model (self : ConnectAPI) (path : string) (model : Event)
    (now : Z) (reply : option Response)
  : list api_event * api_outcome Response :=
  let json_dict := Event_dict model in
  send_dict self path json_dict now reply.

(** [ConnectAPI.emit_event], with the value of the kind of event *)
Definition emit_event (self : ConnectAPI) (emit_event : string)
    (command_id : option Z) (reason state source root : option string)
    (now : Z) (reply : option Response)
  : list api_event * api_outcome unit :=
  let event := mkEvent emit_event command_id reason state source root in
  match send_model self "/p/events" event now reply with
  | (events, RaisedRequestException) => (events, ApiReturned tt)   (* pass *)
  | (events, ApiReturned _) => (events, ApiReturned tt)
  end.

(** ** The configuration of the client ([OldBuddy.__init__]) *)

Definition lower_ascii (c : ascii) : ascii :=
  let n := nat_of_ascii c in
  if ((65 <=? n) && (n <=? 90))%nat then ascii_of_nat (n + 32) else c.

(** [str.lower] on ASCII text *)
Fixpoint lower (s : string) : string :=
  match s with
  | EmptyString => EmptyString
  | String c s' => String (lower_ascii c) (lower s')
  end.

Inductive config_exn : Type :=
| KeyError (key : string)
| ValueError.

(** [distutils.util.strtobool] *)
Definition strtobool (val : string) : config_exn + bool :=
  let val := lower val in
  if bool_decide (val ∈ ["y"; "yes"; "t"; "true"; "on"; "1"]) then inr true
  else if bool_decide (val ∈ ["n"; "no"; "f"; "false"; "off"; "0"]) then inr false
  else inl ValueError.

(** [mapping[key]] *)
Definition getitem {V} (mapping : gmap string V) (key : string) : config_exn + V :=
  match mapping !! key with
  | Some v => inr v
  | None => inl (KeyError key)
  end.

(** The unit of work of the serial queue.  The classes are not among the
    sources: an instruction is what its constructor is given. *)
Inductive instruction : Type :=
| Instruction (message : string) (to_checksum : bool)
| MatchableInstruction (message : string) (capture_matching : regex)
    (to_checksum : bool)
| CollectingInstruction (begin_regex capture_regex end_regex : regex)
    (message : string) (to_checksum : bool).

(** Modelled from the spec: [SerialQueue.enqueue_one] appends an
    instruction to the waiting ones, or puts it in front of them. *)
Definition enqueue_one (queue : list instruction) (instr : instruction)
    (to_front : bool) : list instruction :=
  if to_front then instr :: queue else (queue ++ [instr])%list.

(** Modelled from the spec: [SerialQueue.enqueue_list] inserts a batch in
    one go, in its order, behind the waiting instructions or in front of
    them. *)
Definition enqueue_list (queue : list instruction) (instrs : list instruction)
    (front : bool) : list instruction :=
  if front then (instrs ++ queue)%list else (queue ++ instrs)%list.

(** [helpers.enqueue_instruction]: the queue as it is left, and the
    instruction. *)
Definition enqueue_instruction (queue : list instruction) (message : string)
    (to_front to_checksum : bool) : list instruction * instruction :=
  let instr := Instruction message to_checksum in
  (enqueue_one queue instr to_front, instr).

(** [helpers.enqueue_matchable] *)
Definition enqueue_matchable (queue : list instruction) (message : string)
    (regexp : regex) (to_front to_checksum : bool)
  : list instruction * instruction :=
  let instr := MatchableInstruction message regexp to_checksum in
  (enqueue_one queue instr to_front, instr).

(** [helpers.enqueue_collecting]: there is no way to the front. *)
Definition enqueue_collecting (queue : list instruction) (message : string)
    (begin_regex capture_regex end_regex : regex) (to_checksum : bool)
  : list instruction * instruction :=
  let instr :=
    CollectingInstruction begin_regex capture_regex end_regex message to_checksum in
  (enqueue_one queue instr false, instr).

(** [helpers.enqueue_list_from_str]: the loop appends one instruction for
    each message. *)
Definition enqueue_list_from_str (queue : list instruction)
    (message_list : list string) (regexp : regex) (front to_checksum : bool)
  : list instruction * list instruction :=
  let instruction_list :=
    fold_left
      (fun instruction_list message =>
         (instruction_list ++ [MatchableInstruction message regexp to_checksum])%list)
      message_list [] in
  (enqueue_list queue instruction_list front, instruction_list).

(** [helpers.wait_for_instruction]: [should_wait n] is what the [n]-th call
    of [should_wait()] gives and [confirmed n] what the [n]-th
    [wait_for_confirmation] gives; the result is the number of waits, if
    the loop ends within [fuel] turns. *)
Fixpoint wait_for_instruction (should_wait confirmed : nat -> bool)
    (fuel turn : nat) : option nat :=
  match fuel with
  | O => None
  | S fuel' =>
      if should_wait turn then
        if confirmed turn then Some (S turn)
        else wait_for_instruction should_wait confirmed fuel' (S turn)
      else Some turn
  end.

(** What the start of [OldBuddy.__init__] makes of the configuration file,
    given as its sections: the serial queue as it is left, and the client
    of the remote service or the exception. *)
Definition load_connect_config (config : gmap string (gmap string string))
    (serial_queue : list instruction) (classes : Classes)
  : list instruction * (config_exn + outcome ConnectAPI) :=
  let settings :=
    match getitem config "connect" with
    | inl e => inl e
    | inr connect_config =>
        match getitem connect_config "address" with
        | inl e => inl e
        | inr address =>
            match getitem connect_config "port" with
            | inl e => inl e
            | inr port =>
                match getitem connect_config "token" with
                | inl e => inl e
                | inr token =>
                    match getitem connect_config "tls" with
                    | inl _ => inr (address, port, token, false)   (* except KeyError *)
                    | inr value =>
                        match strtobool value with
                        | inl e => inl e
                        | inr tls => inr (address, port, token, tls)
                        end
                    end
                end
            end
        end
    end in
  match settings with
  | inl (KeyError key) =>
      (fst (enqueue_instruction serial_queue "M117 Bad Old Buddy config" false false),
       inl (KeyError key))
  | inl ValueError => (serial_queue, inl ValueError)
  | inr (address, port, token, tls) =>
      (serial_queue, inr (snd (ConnectAPI_init address port token tls classes)))
  end.

(** A method that returns, and whose first signal, if it sends one, carries
    the command identifier and the source [x]; without a signal the
    expectation [change] stays installed. *)
Definition first_signal_from {A} (change : StateChange)
    (x : option Z * option string) (m : M A) : Prop :=
  forall self, expected_state_change self = Some change ->
    exists a self' events,
      m self = mkRun self' events (Returned a) /\
      (signals events = [] /\ expected_state_change self' = Some change \/
       exists state rest, signals events = (state, fst x, snd x) :: rest).

(** * Properties *)

(** *** The stored state is in sync with the slots *)

Lemma makes_keeps_sync {A} (m : M A) : makes_sync m -> keeps_sync m.
Proof. intros H self _. apply H. Qed.

Lemma keeps_sync_ret {A} (a : A) : keeps_sync (ret a).
Proof. intros self H. split; [exact H | constructor]. Qed.

Lemma keeps_sync_raise {A} (e : exn) : keeps_sync (@raise A e).
Proof. intros self H. split; [exact H | constructor]. Qed.

Lemma keeps_sync_gets {A} (f : StateManager -> A) : keeps_sync (gets f).
Proof. intros self H. split; [exact H | constructor]. Qed.

Lemma keeps_sync_bind {A B} (m : M A) (f : A -> M B) :
  keeps_sync m -> (forall a, keeps_sync (f a)) -> keeps_sync (bind m f).
Proof.
  intros Hm Hf self H. unfold bind.
  destruct (Hm self H) as [H1 T1].
  destruct (m self) as [s1 t1 [a|e]]; cbn in *.
  - destruct (Hf a _ H1) as [H2 T2].
    destruct (f a s1) as [s2 t2 r2]; cbn in *. split; [exact H2|].
    apply Forall_app; split; assumption.
  - split; assumption.
Qed.

Lemma keeps_sync_try {A B} (body : M A) caught (handler : M B) orelse :
  keeps_sync body -> keeps_sync handler -> (forall a, keeps_sync (orelse a)) ->
  keeps_sync (try_except_else body caught handler orelse).
Proof.
  intros Hb Hh Ho self H. unfold try_except_else.
  destruct (Hb self H) as [H1 T1].
  destruct (body self) as [s1 t1 [a|e]]; cbn in *.
  - destruct (Ho a _ H1) as [H2 T2].
    destruct (orelse a s1) as [s2 t2 r2]; cbn in *. split; [exact H2|].
    apply Forall_app; split; assumption.
  - destruct (decide (e = caught)); cbn.
    + destruct (Hh _ H1) as [H2 T2].
      destruct (handler s1) as [s2 t2 r2]; cbn in *. split; [exact H2|].
      apply Forall_app; split; assumption.
    + split; assumption.
Qed.

Lemma state_may_have_changed_makes_sync : makes_sync state_may_have_changed.
Proof.
  intros self. unfold state_may_have_changed, bind, gets, modify, raise, ret,
    send_state_changed, emit. cbn.
  case_bool_decide as Hne; cbn.
  - destruct (is_expected _) eqn:Hexp; cbn.
    + destruct (expected_state_change self) as [change|] eqn:Hc; cbn.
      * destruct (expected_source _) as [src|]; cbn.
        -- split; [reflexivity|]. repeat constructor.
        -- split; [reflexivity|constructor].
      * split; [reflexivity|constructor].
    + split; [reflexivity|]. repeat constructor.
  - split; [|constructor]. unfold synced.
    destruct (decide (current_state self = get_state self)); congruence.
Qed.

Lemma makes_sync_bind_r {A B} (m : M A) (f : A -> M B) :
  raises_in_sync m -> (forall a, makes_sync (f a)) -> makes_sync (bind m f).
Proof.
  intros Hm Hf self. unfold bind.
  destruct (Hm self) as [T1 R1].
  destruct (m self) as [s1 t1 [a|e]]; cbn in *.
  - destruct (Hf a s1) as [H2 T2].
    destruct (f a s1) as [s2 t2 r2]; cbn in *. split; [exact H2|].
    apply Forall_app; split; assumption.
  - split; [apply (R1 e); reflexivity | exact T1].
Qed.

Lemma makes_sync_bind_l {A B} (m : M A) (f : A -> M B) :
  makes_sync m -> (forall a, keeps_sync (f a)) -> makes_sync (bind m f).
Proof.
  intros Hm Hf self. unfold bind.
  destruct (Hm self) as [H1 T1].
  destruct (m self) as [s1 t1 [a|e]]; cbn in *.
  - destruct (Hf a _ H1) as [H2 T2].
    destruct (f a s1) as [s2 t2 r2]; cbn in *. split; [exact H2|].
    apply Forall_app; split; assumption.
  - split; assumption.
Qed.

Lemma raises_in_sync_gets {A} (f : StateManager -> A) : raises_in_sync (gets f).
Proof. intros self. split; [constructor | discriminate]. Qed.

Lemma raises_in_sync_modify f : raises_in_sync (modify f).
Proof. intros self. split; [constructor | discriminate]. Qed.

Lemma raises_in_sync_ret {A} (a : A) : raises_in_sync (ret a).
Proof. intros self. split; [constructor | discriminate]. Qed.

Lemma raises_in_sync_bind {A B} (m : M A) (f : A -> M B) :
  raises_in_sync m -> (forall a, raises_in_sync (f a)) -> raises_in_sync (bind m f).
Proof.
  intros Hm Hf self. unfold bind.
  destruct (Hm self) as [T1 R1].
  destruct (m self) as [s1 t1 [a|e]]; cbn in *.
  - destruct (Hf a s1) as [T2 R2].
    destruct (f a s1) as [s2 t2 r2]; cbn in *. split; [|exact R2].
    apply Forall_app; split; assumption.
  - split; [exact T1|]. intros e' _. apply (R1 e). reflexivity.
Qed.

Lemma makes_sync_raises_in_sync {A} (m : M A) : makes_sync m -> raises_in_sync m.
Proof. intros H self. destruct (H self). split; [assumption | intros; assumption]. Qed.

Lemma keeps_sync_stop_expecting_change : keeps_sync stop_expecting_change.
Proof. intros self H. split; [exact H | constructor]. Qed.

Lemma keeps_sync_expect_change change : keeps_sync (expect_change change).
Proof. intros self H. split; [exact H | constructor]. Qed.

(** A decorated method leaves the manager in sync whenever its body, if it
    raises, does so with the manager in sync. *)
Lemma state_influencer_makes_sync state_change (func : M unit) :
  raises_in_sync func -> makes_sync (state_influencer state_change func).
Proof.
  intros Hfunc. unfold state_influencer.
  apply makes_sync_bind_r; [apply raises_in_sync_gets|]. intros expected.
  apply makes_sync_bind_r.
  { destruct expected, state_change; first [apply raises_in_sync_ret | apply raises_in_sync_modify]. }
  intros _. apply makes_sync_bind_r; [exact Hfunc|]. intros _.
  apply makes_sync_bind_l; [apply state_may_have_changed_makes_sync|]. intros _.
  destruct expected, state_change;
    first [apply keeps_sync_ret | apply keeps_sync_stop_expecting_change].
Qed.

Ltac quiet_body :=
  repeat first
    [ apply makes_sync_raises_in_sync, state_may_have_changed_makes_sync
    | apply raises_in_sync_gets | apply raises_in_sync_modify
    | apply raises_in_sync_ret
    | apply raises_in_sync_bind; [|intros ?]
    | match goal with |- raises_in_sync (if ?b then _ else _) => destruct b end ].

Lemma printing_makes_sync : makes_sync printing.
Proof. apply state_influencer_makes_sync. quiet_body. Qed.

Lemma not_printing_makes_sync : makes_sync not_printing.
Proof. apply state_influencer_makes_sync. quiet_body. Qed.

Lemma finished_makes_sync : makes_sync finished.
Proof. apply state_influencer_makes_sync. quiet_body. Qed.

Lemma busy_makes_sync : makes_sync busy.
Proof. apply state_influencer_makes_sync. quiet_body. Qed.

Lemma paused_makes_sync : makes_sync paused.
Proof. apply state_influencer_makes_sync. quiet_body. Qed.

Lemma resumed_makes_sync : makes_sync resumed.
Proof. apply state_influencer_makes_sync. quiet_body. Qed.

Lemma ok_makes_sync : makes_sync ok.
Proof. apply state_influencer_makes_sync. quiet_body. Qed.

Lemma attention_makes_sync : makes_sync attention.
Proof. apply state_influencer_makes_sync. quiet_body. Qed.

Lemma error_makes_sync : makes_sync error.
Proof. apply state_influencer_makes_sync. quiet_body. Qed.

Lemma keeps_sync_emit_write message : keeps_sync (emit (SerialWrite message)).
Proof. intros self H. split; [exact H | repeat constructor]. Qed.

Lemma keeps_sync_emit_progress : keeps_sync (emit InsertProgress).
Proof. intros self H. split; [exact H | repeat constructor]. Qed.

Lemma update_state_keeps_sync progress_reply lines :
  keeps_sync (update_state progress_reply lines).
Proof.
  unfold update_state.
  apply keeps_sync_bind; [apply keeps_sync_gets|]. intros [|].
  { apply keeps_sync_emit_write. }
  apply keeps_sync_bind; [apply keeps_sync_gets|]. intros printing_first.
  apply keeps_sync_bind.
  - case_bool_decide; [|apply keeps_sync_ret].
    apply keeps_sync_try; [|apply keeps_sync_ret|].
    + unfold insert_progress.
      apply keeps_sync_bind; [apply keeps_sync_emit_progress|]. intros _.
      destruct progress_reply; [apply keeps_sync_ret | apply keeps_sync_raise].
    + intros progress. destruct (progress =? 100)%Z; [|apply keeps_sync_ret].
      apply keeps_sync_bind; [apply keeps_sync_expect_change|]. intros _.
      apply makes_keeps_sync, finished_makes_sync.
  - intros _. apply keeps_sync_try; [|apply keeps_sync_ret|].
    + unfold serial_write_match.
      apply keeps_sync_bind; [apply keeps_sync_emit_write|]. intros _.
      destruct (first_match _ _); [apply keeps_sync_ret | apply keeps_sync_raise].
    + intros m. apply keeps_sync_bind; [apply keeps_sync_gets|]. intros printing_then.
      destruct (_ && _);
        apply makes_keeps_sync; [apply not_printing_makes_sync | apply printing_makes_sync].
Qed.

Lemma dispatch_keeps_sync handlers line :
  Forall (fun h => makes_sync (snd h)) handlers ->
  keeps_sync (dispatch handlers line).
Proof.
  induction 1 as [|[pattern handler] handlers Hh _ IH]; cbn.
  - apply keeps_sync_ret.
  - apply keeps_sync_bind; [|intros _; exact IH].
    destruct (matches pattern line);
      [apply makes_keeps_sync; exact Hh | apply keeps_sync_ret].
Qed.

Lemma receive_line_keeps_sync line : keeps_sync (receive_line line).
Proof.
  apply dispatch_keeps_sync. unfold output_handlers.
  repeat (apply List.Forall_cons;
          [ cbn;
            first [ apply ok_makes_sync | apply busy_makes_sync
                  | apply attention_makes_sync | apply paused_makes_sync
                  | apply resumed_makes_sync | apply not_printing_makes_sync
                  | apply printing_makes_sync | apply finished_makes_sync
                  | apply error_makes_sync ] |]).
  apply List.Forall_nil.
Qed.

Lemma step_keeps_sync i : keeps_sync (step i).
Proof.
  destruct i; cbn.
  - apply receive_line_keeps_sync.
  - apply update_state_keeps_sync.
  - apply keeps_sync_expect_change.
  - apply keeps_sync_stop_expecting_change.
  - intros self H. split; [exact H | constructor].
Qed.

Lemma run_inputs_keeps_sync inputs : forall self,
  synced self ->
  synced (fst (run_inputs inputs self)) /\
  Forall signal_synced (snd (run_inputs inputs self)).
Proof.
  induction inputs as [|i inputs IH]; intros self H; cbn.
  - split; [exact H | constructor].
  - destruct (step_keeps_sync i self H) as [H1 T1].
    specialize (IH _ H1).
    destruct (run_inputs inputs (final (step i self))) as [self' events]; cbn in *.
    destruct IH as [H2 T2]. split; [exact H2|].
    apply Forall_app; split; assumption.
Qed.

(** C1: [get_state] is the override slot if there is one, else the printing
    slot if there is one, else the base slot, whatever the slots hold; so
    it is the same for two managers with the same three slots; and the
    stored copy [current_state] never drifts from it: after any history of
    lines, polls, installed expectations and busy flags on a new manager,
    raising calls included, [current_state] is the composed state, and so
    it is in the sender of every [state_changed] signal sent on the way. *)
Theorem get_state_is_composed_state :
  (forall self : StateManager,
      get_state self =
      default (default (base_state self) (printing_state self)) (override_state self)) /\
  (forall self1 self2 : StateManager,
      base_state self1 = base_state self2 ->
      printing_state self1 = printing_state self2 ->
      override_state self1 = override_state self2 ->
      get_state self1 = get_state self2) /\
  (forall inputs : list input,
      let '(self, events) := run_inputs inputs new_manager in
      current_state self = get_state self /\
      Forall (fun e => match e with
                       | StateChangedSignal sender _ _ =>
                           current_state sender =
                           default (default (base_state sender) (printing_state sender))
                             (override_state sender)
                       | _ => True
                       end) events).
Proof.
  assert (Hdef : forall self : StateManager,
             get_state self =
             default (default (base_state self) (printing_state self))
               (override_state self)).
  { intros self. unfold get_state.
    destruct (override_state self), (printing_state self); reflexivity. }
  split; [exact Hdef|]. split.
  - intros self1 self2 Hb Hp Ho. rewrite !Hdef, Hb, Hp, Ho. reflexivity.
  - intros inputs.
    destruct (run_inputs_keeps_sync inputs new_manager) as [H T]; [reflexivity|].
    destruct (run_inputs inputs new_manager) as [self events]. cbn in *.
    split; [exact H|].
    eapply Forall_impl; [exact T|].
    intros [| |sender cid src]; cbn; auto.
Qed.

(** *** Attribution, as the specification words it *)

Lemma expected_source_attributed self change :
  expected_state_change self = Some change ->
  expected_source self =
  attributed_source change (last_state self) (current_state self).
Proof.
  intros He.
  unfold expected_source, attributed_source, defined_source, contains, item_or_None.
  rewrite He.
  destruct (from_states change !! last_state self) as [[src_from|]|],
           (to_states change !! current_state self) as [[src_to|]|]; cbn;
    try reflexivity.
  case_bool_decide as Hne; destruct (decide (src_from = src_to)) as [Heq|Hneq];
    cbn; congruence.
Qed.

Lemma is_expected_classified self change :
  expected_state_change self = Some change ->
  is_expected self =
  classified_expected change (last_state self) (current_state self).
Proof.
  intros He. unfold is_expected, classified_expected, contains. rewrite He.
  reflexivity.
Qed.

(** *** Running the methods step by step *)

Lemma bind_ret {A B} (a : A) (k : A -> M B) self :
  bind (ret a) k self = k a self.
Proof. unfold bind, ret. destruct (k a self); reflexivity. Qed.

Lemma bind_gets {A B} (f : StateManager -> A) (k : A -> M B) self :
  bind (gets f) k self = k (f self) self.
Proof. unfold bind, gets. destruct (k (f self) self); reflexivity. Qed.

Lemma bind_modify {B} f (k : unit -> M B) self :
  bind (modify f) k self = k tt (f self).
Proof. unfold bind, modify. destruct (k tt (f self)); reflexivity. Qed.

Lemma bind_raise {A B} e (k : A -> M B) self :
  bind (raise e) k self = mkRun self [] (Raised e).
Proof. reflexivity. Qed.

Lemma bind_returned {A B} (m : M A) (k : A -> M B) self self' a :
  m self = mkRun self' [] (Returned a) ->
  bind m k self = k a self'.
Proof. intros H. unfold bind. rewrite H. destruct (k a self'); reflexivity. Qed.

Ltac mstep :=
  first [ rewrite bind_gets | rewrite bind_modify | rewrite bind_ret
        | rewrite bind_raise ];
  cbv beta.

(** What [state_may_have_changed] does on a change while an expectation is
    installed, in terms of the specification's attribution. *)
Lemma state_may_have_changed_attributes self change :
  expected_state_change self = Some change ->
  get_state self <> current_state self ->
  state_may_have_changed self =
  if classified_expected change (current_state self) (get_state self) then
    match attributed_source change (current_state self) (get_state self) with
    | Some source =>
        mkRun (after_change self)
          [StateChangedSignal (after_change self)
             (get_command_id <$> api_response change)
             (Some (Sources_name source))]
          (Returned tt)
    | None =>
        mkRun (set_current_state (get_state self)
                 (set_last_state (current_state self) self))
          [] (Raised AttributeError)
    end
  else
    mkRun (after_change self)
      [StateChangedSignal (after_change self) None None] (Returned tt).
Proof.
  intros He Hne.
  unfold state_may_have_changed. do 2 mstep.
  rewrite bool_decide_true by exact Hne.
  do 4 mstep.
  change (get_state (set_last_state (current_state self) self))
    with (get_state self).
  set (self1 := set_current_state _ _).
  assert (He1 : expected_state_change self1 = Some change) by exact He.
  rewrite (is_expected_classified self1 change He1).
  change (last_state self1) with (current_state self).
  change (current_state self1) with (get_state self).
  destruct (classified_expected change (current_state self) (get_state self)).
  - unfold bind at 1. rewrite bind_gets, He1, bind_gets.
    rewrite (expected_source_attributed self1 change He1).
    change (last_state self1) with (current_state self).
    change (current_state self1) with (get_state self).
    destruct (attributed_source change (current_state self) (get_state self));
      [|reflexivity].
    destruct (api_response change); reflexivity.
  - reflexivity.
Qed.

(** On a change with no expectation installed. *)
Lemma state_may_have_changed_unexpected self :
  expected_state_change self = None ->
  get_state self <> current_state self ->
  state_may_have_changed self =
  mkRun (after_change self)
    [StateChangedSignal (after_change self) None None] (Returned tt).
Proof.
  intros He Hne.
  unfold state_may_have_changed. do 2 mstep.
  rewrite bool_decide_true by exact Hne.
  do 4 mstep.
  unfold is_expected. cbn. rewrite He. reflexivity.
Qed.

(** With no change of the composed state. *)
Lemma state_may_have_changed_same self :
  get_state self = current_state self ->
  state_may_have_changed self = mkRun self [] (Returned tt).
Proof.
  intros Heq. unfold state_may_have_changed. do 2 mstep.
  rewrite bool_decide_false by (intros H; apply H; exact Heq).
  reflexivity.
Qed.

Lemma attributed_is_classified change last curr source :
  attributed_source change last curr = Some source ->
  classified_expected change last curr = true.
Proof.
  unfold attributed_source, defined_source, classified_expected.
  destruct (from_states change !! last) as [[src_from|]|],
           (to_states change !! curr) as [[src_to|]|],
           (default_source change); cbn; intros H;
    first [reflexivity | discriminate H].
Qed.

(** C2: with an expectation installed, the source that [expected_source]
    gives for the change from [last] to [curr] is the one of [from_states]
    when both dictionaries define a source and the two differ, else the
    one that is defined, else the default source; a processed change is
    signalled with the name of that source when there is one, and with no
    source when there is none and the change is not classified as
    expected.  A manager with [base = READY], no printing state and the
    override [ATTENTION], on the line [ok] with no expectation installed,
    sends one signal, for [READY], with the source [USER]. *)
Theorem attribution_follows_specification :
  (forall (self : StateManager) change,
      expected_state_change self = Some change ->
      expected_source self =
      attributed_source change (last_state self) (current_state self)) /\
  (forall (self : StateManager) change source,
      expected_state_change self = Some change ->
      get_state self <> current_state self ->
      attributed_source change (current_state self) (get_state self) = Some source ->
      state_may_have_changed self =
      mkRun (after_change self)
        [StateChangedSignal (after_change self)
           (get_command_id <$> api_response change) (Some (Sources_name source))]
        (Returned tt)) /\
  (forall (self : StateManager) change,
      expected_state_change self = Some change ->
      get_state self <> current_state self ->
      attributed_source change (current_state self) (get_state self) = None ->
      classified_expected change (current_state self) (get_state self) = false ->
      state_may_have_changed self =
      mkRun (after_change self)
        [StateChangedSignal (after_change self) None None] (Returned tt)) /\
  (forall self : StateManager,
      base_state self = READY ->
      printing_state self = None ->
      override_state self = Some ATTENTION ->
      current_state self = ATTENTION ->
      expected_state_change self = None ->
      let self' := after_change (set_override_state None self) in
      receive_line "ok" self =
      mkRun self' [StateChangedSignal self' None (Some "USER")] (Returned tt) /\
      current_state self' = READY).
Proof.
  split; [exact expected_source_attributed|]. split; [|split].
  - intros self change source He Hne Ha.
    rewrite (state_may_have_changed_attributes self change He Hne).
    rewrite (attributed_is_classified _ _ _ _ Ha), Ha. reflexivity.
  - intros self change He Hne Ha Hc.
    rewrite (state_may_have_changed_attributes self change He Hne).
    rewrite Hc. reflexivity.
  - intros [base printing override flag last current expected]; cbn.
    intros -> -> -> -> ->. split; [|reflexivity].
    vm_compute. reflexivity.
Qed.

(** *** Expectations whose attribution cannot fail *)

Lemma no_expectation_sourced self :
  expected_state_change self = None -> expectation_sourced self.
Proof. intros He change Hc. congruence. Qed.

Lemma returns_ret {A} (a : A) : returns_if_sourced (ret a).
Proof. intros self H. exists a, self, []. split; [reflexivity | exact H]. Qed.

Lemma returns_gets {A} (f : StateManager -> A) : returns_if_sourced (gets f).
Proof. intros self H. exists (f self), self, []. split; [reflexivity | exact H]. Qed.

Lemma returns_modify f :
  (forall self, expectation_sourced self -> expectation_sourced (f self)) ->
  returns_if_sourced (modify f).
Proof.
  intros Hf self H. exists tt, (f self), []. split; [reflexivity | apply Hf, H].
Qed.

Lemma returns_bind {A B} (m : M A) (f : A -> M B) :
  returns_if_sourced m -> (forall a, returns_if_sourced (f a)) ->
  returns_if_sourced (bind m f).
Proof.
  intros Hm Hf self H.
  destruct (Hm self H) as (a & s1 & t1 & E1 & H1).
  destruct (Hf a s1 H1) as (b & s2 & t2 & E2 & H2).
  exists b, s2, (t1 ++ t2)%list. split; [|exact H2].
  unfold bind. rewrite E1, E2. reflexivity.
Qed.

Lemma state_may_have_changed_returns : returns_if_sourced state_may_have_changed.
Proof.
  intros self H.
  destruct (decide (get_state self = current_state self)) as [Heq|Hne].
  { rewrite (state_may_have_changed_same self Heq). eauto 6. }
  destruct (expected_state_change self) as [change|] eqn:He.
  - rewrite (state_may_have_changed_attributes self change He Hne).
    destruct (classified_expected _ _ _) eqn:Hc.
    + destruct (H change He _ _ Hc) as [source Hs]. rewrite Hs.
      eexists _, _, _. split; [reflexivity|]. apply no_expectation_sourced. reflexivity.
    + eexists _, _, _. split; [reflexivity|]. apply no_expectation_sourced. reflexivity.
  - rewrite (state_may_have_changed_unexpected self He Hne).
    eexists _, _, _. split; [reflexivity|]. apply no_expectation_sourced. reflexivity.
Qed.

Lemma expectation_sourced_slots f :
  (forall self, expected_state_change (f self) = expected_state_change self) ->
  forall self, expectation_sourced self -> expectation_sourced (f self).
Proof. intros Hf self H change Hc. apply H. rewrite <- Hf. exact Hc. Qed.

Lemma expectation_sourced_set expected :
  (forall change, expected = Some change -> sourced change) ->
  forall self, expectation_sourced (set_expected_state_change expected self).
Proof. intros Hs self change Hc. apply Hs. exact Hc. Qed.

Lemma sourced_expectation_with_sources to_ from_ :
  Forall (fun entry => is_Some (snd entry)) to_ ->
  Forall (fun entry => is_Some (snd entry)) from_ ->
  sourced (expectation to_ from_ None).
Proof.
  intros Hto Hfrom last curr.
  assert (Hl : forall l key,
             Forall (fun entry : States * option Sources => is_Some (snd entry)) l ->
             (list_to_map l : gmap States (option Sources)) !! key = None \/
             exists source, (list_to_map l : gmap States (option Sources)) !! key
                            = Some (Some source)).
  { induction 1 as [|[k v] l [source Hv] _ IH]; cbn.
    - left. apply lookup_empty.
    - cbn in Hv. subst v. destruct (decide (k = key)) as [->|Hneq].
      + right. exists source. apply lookup_insert_eq.
      + rewrite lookup_insert_ne by exact Hneq. exact IH. }
  unfold classified_expected, attributed_source, defined_source, expectation; cbn.
  destruct (Hl to_ curr Hto) as [-> | [st ->]],
           (Hl from_ last Hfrom) as [-> | [sf ->]]; cbn.
  - discriminate.
  - eauto.
  - eauto.
  - intros _. destruct (decide (sf = st)); eauto.
Qed.

Ltac returns_body :=
  repeat first
    [ apply state_may_have_changed_returns
    | apply returns_gets | apply returns_ret
    | apply returns_modify, expectation_sourced_slots; intros ?; reflexivity
    | apply returns_bind; [|intros ?]
    | match goal with |- returns_if_sourced (if ?b then _ else _) => destruct b end ].

(** A decorated method returns when the expectation at entry, if any, is
    sourced, and so is its own default. *)
Lemma state_influencer_returns change (func : M unit) :
  sourced change -> returns_if_sourced func ->
  returns_if_sourced (state_influencer (Some change) func).
Proof.
  intros Hs Hfunc. unfold state_influencer.
  apply returns_bind; [apply returns_gets|]. intros expected.
  apply returns_bind.
  { destruct expected; [apply returns_ret|].
    apply returns_modify. intros self _. apply expectation_sourced_set.
    intros c [= <-]. exact Hs. }
  intros _. apply returns_bind; [exact Hfunc|]. intros _.
  apply returns_bind; [apply state_may_have_changed_returns|]. intros _.
  destruct expected; [apply returns_ret|].
  apply returns_modify. intros self _. apply expectation_sourced_set. discriminate.
Qed.

(** A decorated method that installs its default expectation has withdrawn
    it when it returns. *)
Lemma state_influencer_clears change (func : M unit) self :
  sourced change -> returns_if_sourced func ->
  expected_state_change self = None ->
  exists self' events,
    state_influencer (Some change) func self = mkRun self' events (Returned tt) /\
    expected_state_change self' = None.
Proof.
  intros Hs Hfunc He. unfold state_influencer.
  rewrite bind_gets, He. unfold expect_change. rewrite bind_modify.
  set (entry := set_expected_state_change (Some change) self).
  assert (Hentry : expectation_sourced entry).
  { apply expectation_sourced_set. intros c [= <-]. exact Hs. }
  destruct (Hfunc entry Hentry) as ([] & s1 & t1 & E1 & H1).
  destruct (state_may_have_changed_returns s1 H1) as ([] & s2 & t2 & E2 & H2).
  exists (set_expected_state_change None s2), (t1 ++ (t2 ++ []))%list.
  split; [|reflexivity].
  unfold bind. rewrite E1, E2. reflexivity.
Qed.

Ltac sourced_default :=
  apply sourced_expectation_with_sources;
  repeat (apply List.Forall_cons; [cbn; eauto|]); apply List.Forall_nil.

Lemma mutators_return m : In m mutators -> returns_if_sourced m.
Proof.
  unfold mutators. cbn.
  intros H; repeat (destruct H as [<- | H]); [..|destruct H];
    (apply state_influencer_returns; [sourced_default | returns_body]).
Qed.

Lemma mutators_clear_default m self :
  In m mutators ->
  expected_state_change self = None ->
  exists self' events,
    m self = mkRun self' events (Returned tt) /\
    expected_state_change self' = None.
Proof.
  unfold mutators. cbn.
  intros H He; repeat (destruct H as [<- | H]); [..|destruct H];
    (apply state_influencer_clears; [sourced_default | returns_body | exact He]).
Qed.

(** *** The expectation is withdrawn before the signal is sent *)

Lemma signals_cleared_bind {A B} (m : M A) (f : A -> M B) :
  signals_cleared m -> (forall a, signals_cleared (f a)) ->
  signals_cleared (bind m f).
Proof.
  intros Hm Hf self. unfold bind. specialize (Hm self).
  destruct (m self) as [s1 t1 [a|e]]; cbn in *; [|exact Hm].
  specialize (Hf a s1). destruct (f a s1) as [s2 t2 r2]; cbn in *.
  apply Forall_app; split; assumption.
Qed.

Lemma signals_cleared_try {A B} (body : M A) caught (handler : M B) orelse :
  signals_cleared body -> signals_cleared handler ->
  (forall a, signals_cleared (orelse a)) ->
  signals_cleared (try_except_else body caught handler orelse).
Proof.
  intros Hb Hh Ho self. unfold try_except_else. specialize (Hb self).
  destruct (body self) as [s1 t1 [a|e]]; cbn in *.
  - specialize (Ho a s1). destruct (orelse a s1) as [s2 t2 r2]; cbn in *.
    apply Forall_app; split; assumption.
  - destruct (decide (e = caught)); [|exact Hb].
    specialize (Hh s1). destruct (handler s1) as [s2 t2 r2]; cbn in *.
    apply Forall_app; split; assumption.
Qed.

Lemma signals_cleared_silent {A} (m : M A) :
  (forall self, trace (m self) = []) -> signals_cleared m.
Proof. intros H self. rewrite H. constructor. Qed.

Lemma signals_cleared_emit e : signal_cleared e -> signals_cleared (emit e).
Proof. intros H self. cbn. repeat constructor. exact H. Qed.

Lemma state_may_have_changed_cleared : signals_cleared state_may_have_changed.
Proof.
  intros self.
  destruct (decide (get_state self = current_state self)) as [Heq|Hne].
  { rewrite (state_may_have_changed_same self Heq). constructor. }
  destruct (expected_state_change self) as [change|] eqn:He.
  - rewrite (state_may_have_changed_attributes self change He Hne).
    destruct (classified_expected _ _ _);
      [destruct (attributed_source _ _ _)|]; cbn; repeat constructor.
  - rewrite (state_may_have_changed_unexpected self He Hne).
    cbn; repeat constructor.
Qed.

Ltac cleared_body :=
  repeat first
    [ apply state_may_have_changed_cleared
    | apply signals_cleared_silent; intros ?; reflexivity
    | apply signals_cleared_emit; exact I
    | apply signals_cleared_bind; [|intros ?]
    | apply signals_cleared_try; [| |intros ?]
    | match goal with |- signals_cleared (if ?b then _ else _) => destruct b end
    | match goal with |- signals_cleared (match ?b with _ => _ end) => destruct b end ].

Lemma state_influencer_cleared state_change (func : M unit) :
  signals_cleared func -> signals_cleared (state_influencer state_change func).
Proof.
  intros Hfunc. unfold state_influencer, expect_change, stop_expecting_change.
  apply signals_cleared_bind; [cleared_body|]. intros expected.
  apply signals_cleared_bind; [destruct expected, state_change; cleared_body|].
  intros _. apply signals_cleared_bind; [exact Hfunc|]. intros _.
  apply signals_cleared_bind; [apply state_may_have_changed_cleared|]. intros _.
  destruct expected, state_change; cleared_body.
Qed.

Lemma mutators_cleared m : In m mutators -> signals_cleared m.
Proof.
  unfold mutators. cbn.
  intros H; repeat (destruct H as [<- | H]); [..|destruct H];
    (apply state_influencer_cleared; cleared_body).
Qed.

Lemma update_state_cleared progress_reply lines :
  signals_cleared (update_state progress_reply lines).
Proof.
  assert (Hf := mutators_cleared finished).
  assert (Hn := mutators_cleared not_printing).
  assert (Hp := mutators_cleared printing).
  unfold mutators in *. cbn in Hf, Hn, Hp.
  unfold update_state, serial_write, serial_write_match, insert_progress,
    expect_change.
  apply signals_cleared_bind; [cleared_body|]. intros [|]; [cleared_body|].
  apply signals_cleared_bind; [cleared_body|]. intros printing_first.
  apply signals_cleared_bind.
  - case_bool_decide; [|cleared_body].
    apply signals_cleared_try; [cleared_body | cleared_body |].
    intros progress. destruct (progress =? 100)%Z; [|cleared_body].
    apply signals_cleared_bind; [cleared_body|]. intros _. apply Hf. tauto.
  - intros _. apply signals_cleared_try; [cleared_body | cleared_body |].
    intros m. apply signals_cleared_bind; [cleared_body|]. intros printing_then.
    destruct (_ && _); [apply Hn | apply Hp]; tauto.
Qed.

Lemma dispatch_cleared handlers line :
  Forall (fun h => signals_cleared (snd h)) handlers ->
  signals_cleared (dispatch handlers line).
Proof.
  induction 1 as [|[pattern handler] handlers Hh _ IH]; cbn.
  - cleared_body.
  - apply signals_cleared_bind; [|intros _; exact IH].
    destruct (matches pattern line); [exact Hh | cleared_body].
Qed.

Lemma receive_line_cleared line : signals_cleared (receive_line line).
Proof.
  apply dispatch_cleared. unfold output_handlers.
  repeat (apply List.Forall_cons;
          [cbn; apply mutators_cleared; unfold mutators; cbn; tauto|]).
  apply List.Forall_nil.
Qed.

Lemma step_cleared i : signals_cleared (step i).
Proof.
  destruct i; cbn.
  - apply receive_line_cleared.
  - apply update_state_cleared.
  - cleared_body.
  - cleared_body.
  - cleared_body.
Qed.

Lemma run_inputs_cleared inputs : forall self,
  Forall signal_cleared (snd (run_inputs inputs self)).
Proof.
  induction inputs as [|i inputs IH]; intros self; cbn.
  - constructor.
  - specialize (IH (final (step i self))).
    destruct (run_inputs inputs (final (step i self))) as [self' events]; cbn in *.
    apply Forall_app; split; [apply step_cleared | exact IH].
Qed.

(** C3: in any history of a manager, every [state_changed] signal is sent
    with the expectation register of the sender empty; a change of the
    composed state that is processed to its signal, be it classified as
    expected (with a source to report) or as unexpected, leaves the
    register empty and sends exactly one signal; and each state changing
    method that is entered with the register empty, and so installs its
    default expectation, returns with the register empty again, whether or
    not a change was signalled. *)
Theorem expectation_is_single_shot :
  (forall inputs (self : StateManager),
      Forall (fun e => match e with
                       | StateChangedSignal sender _ _ =>
                           expected_state_change sender = None
                       | _ => True
                       end) (snd (run_inputs inputs self))) /\
  (forall self : StateManager,
      get_state self <> current_state self ->
      (forall change,
          expected_state_change self = Some change ->
          classified_expected change (current_state self) (get_state self) = true ->
          is_Some (attributed_source change (current_state self) (get_state self))) ->
      exists command_id source,
        state_may_have_changed self =
        mkRun (after_change self)
          [StateChangedSignal (after_change self) command_id source] (Returned tt) /\
        expected_state_change (after_change self) = None) /\
  (forall (m : M unit) (self : StateManager),
      In m mutators ->
      expected_state_change self = None ->
      exists self' events,
        m self = mkRun self' events (Returned tt) /\
        expected_state_change self' = None).
Proof.
  split; [|split].
  - intros inputs self. exact (run_inputs_cleared inputs self).
  - intros self Hne Hsrc.
    destruct (expected_state_change self) as [change|] eqn:He.
    + rewrite (state_may_have_changed_attributes self change He Hne).
      destruct (classified_expected _ _ _) eqn:Hc.
      * destruct (Hsrc change eq_refl Hc) as [source ->]. eauto.
      * eauto.
    + rewrite (state_may_have_changed_unexpected self He Hne). eauto.
  - intros m self Hin He. exact (mutators_clear_default m self Hin He).
Qed.

(** *** Pre- and postconditions of returning methods *)

Lemma hoare_ret {A} (P : StateManager -> Prop) (a : A) (Q : A -> StateManager -> Prop) :
  (forall self, P self -> Q a self) -> hoare P (ret a) Q.
Proof. intros H self HP. exists a, self, []. split; [reflexivity | apply H, HP]. Qed.

Lemma hoare_modify (P : StateManager -> Prop) f (Q : unit -> StateManager -> Prop) :
  (forall self, P self -> Q tt (f self)) -> hoare P (modify f) Q.
Proof. intros H self HP. exists tt, (f self), []. split; [reflexivity | apply H, HP]. Qed.

Lemma hoare_bind {A B} (P R : StateManager -> Prop) (m : M A) (k : A -> M B) Q :
  hoare P m (fun _ => R) -> (forall a, hoare R (k a) Q) -> hoare P (bind m k) Q.
Proof.
  intros Hm Hk self HP.
  destruct (Hm self HP) as (a & s1 & t1 & E1 & H1).
  destruct (Hk a s1 H1) as (b & s2 & t2 & E2 & H2).
  exists b, s2, (t1 ++ t2)%list. split; [|exact H2].
  unfold bind. rewrite E1, E2. reflexivity.
Qed.

Lemma hoare_bind_read {A B} (P : StateManager -> Prop) (f : StateManager -> A) v
    (k : A -> M B) Q :
  (forall self, P self -> f self = v) -> hoare P (k v) Q ->
  hoare P (bind (gets f) k) Q.
Proof.
  intros Hv Hk self HP. rewrite bind_gets, (Hv self HP). apply Hk, HP.
Qed.

Lemma state_may_have_changed_hoare x :
  hoare (sourced_with_slots x) state_may_have_changed
    (fun _ => sourced_with_slots x).
Proof.
  intros self [H Hx]. unfold sourced_with_slots.
  destruct (decide (get_state self = current_state self)) as [Heq|Hne].
  { rewrite (state_may_have_changed_same self Heq). eauto 7. }
  assert (Hafter : expectation_sourced (after_change self) /\
                   slots (after_change self) = x).
  { split; [apply no_expectation_sourced; reflexivity | exact Hx]. }
  destruct (expected_state_change self) as [change|] eqn:He.
  - rewrite (state_may_have_changed_attributes self change He Hne).
    destruct (classified_expected _ _ _) eqn:Hc.
    + destruct (H change He _ _ Hc) as [source Hs]. rewrite Hs. eauto 7.
    + eauto 7.
  - rewrite (state_may_have_changed_unexpected self He Hne). eauto 7.
Qed.

Lemma state_influencer_hoare change (func : M unit) x y :
  sourced change ->
  hoare (sourced_with_slots x) func (fun _ => sourced_with_slots y) ->
  hoare (sourced_with_slots x) (state_influencer (Some change) func)
    (fun _ => sourced_with_slots y).
Proof.
  intros Hs Hfunc self HP. unfold state_influencer. rewrite bind_gets.
  assert (Hentry : forall flag : bool,
             hoare (sourced_with_slots x)
               (if flag then expect_change change else ret tt)
               (fun _ => sourced_with_slots x)).
  { intros [|]; [apply hoare_modify | apply hoare_ret]; [|tauto].
    intros s [_ Hx]. split; [|exact Hx].
    apply expectation_sourced_set. intros c [= <-]. exact Hs. }
  assert (Hexit : forall flag : bool,
             hoare (sourced_with_slots y)
               (if flag then stop_expecting_change else ret tt)
               (fun _ => sourced_with_slots y)).
  { intros [|]; [apply hoare_modify | apply hoare_ret]; [|tauto].
    intros s [_ Hy]. split; [|exact Hy].
    apply expectation_sourced_set. discriminate. }
  assert (Hall : forall flag : bool,
             hoare (sourced_with_slots x)
               ((if flag then expect_change change else ret tt) ;;
                func ;; state_may_have_changed ;;
                if flag then stop_expecting_change else ret tt)
               (fun _ => sourced_with_slots y)).
  { intros flag. apply (hoare_bind _ _ _ _ _ (Hentry flag)). intros _.
    apply (hoare_bind _ _ _ _ _ Hfunc). intros _.
    apply (hoare_bind _ _ _ _ _ (state_may_have_changed_hoare y)). intros _.
    apply (Hexit flag). }
  destruct (expected_state_change self);
    [exact (Hall false self HP) | exact (Hall true self HP)].
Qed.

(** *** The slots after a method, whatever its outcome *)

Lemma keeps_slots_bind {A B} (m : M A) (f : A -> M B) :
  keeps_slots m -> (forall a, keeps_slots (f a)) -> keeps_slots (bind m f).
Proof.
  intros Hm Hf self. unfold bind. specialize (Hm self).
  destruct (m self) as [s1 t1 [a|e]]; cbn in *; [|exact Hm].
  specialize (Hf a s1). destruct (f a s1) as [s2 t2 r2]; cbn in *. congruence.
Qed.

Lemma slots_to_bind {A B} g (m : M A) (f : A -> M B) :
  slots_to g m -> (forall a, keeps_slots (f a)) -> slots_to g (bind m f).
Proof.
  intros Hm Hf self. unfold bind. specialize (Hm self).
  destruct (m self) as [s1 t1 [a|e]]; cbn in *; [|exact Hm].
  specialize (Hf a s1). destruct (f a s1) as [s2 t2 r2]; cbn in *. congruence.
Qed.

Lemma state_may_have_changed_keeps_slots : keeps_slots state_may_have_changed.
Proof.
  intros self.
  destruct (decide (get_state self = current_state self)) as [Heq|Hne].
  { rewrite (state_may_have_changed_same self Heq). reflexivity. }
  destruct (expected_state_change self) as [change|] eqn:He.
  - rewrite (state_may_have_changed_attributes self change He Hne).
    destruct (classified_expected _ _ _);
      [destruct (attributed_source _ _ _)|]; reflexivity.
  - rewrite (state_may_have_changed_unexpected self He Hne). reflexivity.
Qed.

Lemma state_influencer_slots state_change (func : M unit) g :
  slots_to g func -> slots_to g (state_influencer state_change func).
Proof.
  intros Hfunc self. unfold state_influencer. rewrite bind_gets.
  assert (Hrest : forall flag : bool,
             slots_to g (func ;; state_may_have_changed ;;
                         if flag then stop_expecting_change else ret tt)).
  { intros flag. apply slots_to_bind; [exact Hfunc|]. intros _.
    apply keeps_slots_bind; [apply state_may_have_changed_keeps_slots|].
    intros _ s. destruct flag; reflexivity. }
  destruct (expected_state_change self), state_change;
    unfold expect_change; first [rewrite bind_ret | rewrite bind_modify];
    first [exact (Hrest false _) | exact (Hrest true _)].
Qed.

Lemma paused_slots_to : slots_to paused_slots paused.
Proof.
  apply state_influencer_slots. intros self. rewrite bind_gets.
  unfold slots, paused_slots. case_bool_decide as Hp.
  - rewrite decide_True by exact Hp. reflexivity.
  - rewrite decide_False by exact Hp. reflexivity.
Qed.

Lemma resumed_slots_to : slots_to resumed_slots resumed.
Proof.
  apply state_influencer_slots. intros self. rewrite bind_gets.
  unfold slots, resumed_slots. case_bool_decide as Hp.
  - rewrite decide_True by exact Hp. reflexivity.
  - rewrite decide_False by exact Hp. reflexivity.
Qed.

Lemma error_slots_to :
  slots_to (fun x => (fst (fst x), snd (fst x), Some ERROR)) error.
Proof. apply state_influencer_slots. intros self. reflexivity. Qed.

(** C8: whatever the manager and whatever the outcome of the call, after
    [paused] the printing slot is [PAUSED] if it was [PRINTING] and is what
    it was otherwise, after [resumed] it is [PRINTING] if it was [PAUSED]
    and is what it was otherwise, and the base and override slots are what
    they were. *)
Theorem paused_and_resumed_frame :
  forall self : StateManager,
    (base_state (final (paused self)) = base_state self /\
     override_state (final (paused self)) = override_state self /\
     printing_state (final (paused self)) =
       (if decide (printing_state self = Some PRINTING) then Some PAUSED
        else printing_state self)) /\
    (base_state (final (resumed self)) = base_state self /\
     override_state (final (resumed self)) = override_state self /\
     printing_state (final (resumed self)) =
       (if decide (printing_state self = Some PAUSED) then Some PRINTING
        else printing_state self)).
Proof.
  intros self.
  assert (Hp := paused_slots_to self). assert (Hr := resumed_slots_to self).
  unfold slots, paused_slots, resumed_slots in *.
  injection Hp as -> -> ->. injection Hr as -> -> ->. auto.
Qed.

(** *** The override slot after [ok], whatever its outcome *)

Lemma keeps_override_bind {A B} (m : M A) (f : A -> M B) :
  keeps_override m -> (forall a, keeps_override (f a)) -> keeps_override (bind m f).
Proof.
  intros Hm Hf self. unfold bind. specialize (Hm self).
  destruct (m self) as [s1 t1 [a|e]]; cbn in *; [|exact Hm].
  specialize (Hf a s1). destruct (f a s1) as [s2 t2 r2]; cbn in *. congruence.
Qed.

Lemma keeps_slots_keeps_override {A} (m : M A) : keeps_slots m -> keeps_override m.
Proof. intros H self. specialize (H self). unfold slots in H. congruence. Qed.

Lemma override_after_bind {A B} (m : M A) (f : A -> M B) self :
  (forall a, keeps_override (f a)) ->
  override_state (final (bind m f self)) = override_state (final (m self)).
Proof.
  intros Hf. unfold bind.
  destruct (m self) as [s1 t1 [a|e]]; cbn; [|reflexivity].
  specialize (Hf a s1). destruct (f a s1) as [s2 t2 r2]; cbn in *. exact Hf.
Qed.

Ltac keeps_override_body :=
  repeat first
    [ apply keeps_slots_keeps_override, state_may_have_changed_keeps_slots
    | apply keeps_override_bind; [|intros ?]
    | match goal with |- keeps_override (if ?b then _ else _) => destruct b end
    | intros ?; reflexivity ].

Lemma ok_clears_override self : override_state (final (ok self)) = None.
Proof.
  unfold ok, state_influencer. rewrite bind_gets.
  set (tail := fun flag : bool => if flag then stop_expecting_change else ret tt).
  assert (Hentry : forall entry (flag : bool) (func : M unit),
             override_state (final (func entry)) = None ->
             override_state
               (final ((func ;; state_may_have_changed ;; tail flag) entry)) = None).
  { intros entry flag func H. rewrite override_after_bind; [exact H|].
    intros _. unfold tail. keeps_override_body. }
  assert (Hfunc : forall entry,
             override_state
               (final
                  ((override_state <- gets override_state ;;
                    (if bool_decide (override_state <> None)
                     then modify (set_override_state None) ;; state_may_have_changed
                     else ret tt) ;;
                    printing_state <- gets printing_state ;;
                    (if bool_decide (printing_state = Some FINISHED)
                     then modify (set_printing_state None) else ret tt) ;;
                    base_state <- gets base_state ;;
                    if bool_decide (base_state = BUSY)
                    then modify (set_base_state READY) else ret tt) entry)) = None).
  { intros entry. rewrite bind_gets.
    rewrite override_after_bind by (intros _; keeps_override_body).
    case_bool_decide as Ho.
    - rewrite bind_modify.
      rewrite (keeps_slots_keeps_override _ state_may_have_changed_keeps_slots).
      reflexivity.
    - exact Ho. }
  destruct (expected_state_change self); unfold expect_change;
    first [rewrite bind_ret | rewrite bind_modify]; cbv beta.
  - apply (Hentry self false). apply Hfunc.
  - apply (Hentry _ true). apply Hfunc.
Qed.

Lemma ok_hoare x :
  hoare (sourced_with_slots x) ok (fun _ => sourced_with_slots (ok_slots x)).
Proof.
  destruct x as [[base printing] override].
  apply state_influencer_hoare; [sourced_default|].
  apply (hoare_bind_read _ _ override); [intros s [_ [= _ _ Ho]]; exact Ho|].
  apply (hoare_bind _ (sourced_with_slots (base, printing, None))).
  { case_bool_decide as Ho.
    - apply (hoare_bind _ (sourced_with_slots (base, printing, None))).
      + apply hoare_modify. intros s [Hs [= Hb Hp _]]. split.
        * revert Hs. apply (expectation_sourced_slots (set_override_state None)).
          reflexivity.
        * unfold slots; cbn. congruence.
      + intros _. apply state_may_have_changed_hoare.
    - apply hoare_ret. intros s Hs.
      destruct override; [discriminate Ho | exact Hs]. }
  intros _.
  apply (hoare_bind_read _ _ printing); [intros s [_ [= _ Hp _]]; exact Hp|].
  apply (hoare_bind _ (sourced_with_slots
                         (base, if decide (printing = Some FINISHED) then None
                                else printing, None))).
  { case_bool_decide as Hp.
    - apply hoare_modify. intros s [Hs [= Hb _ Ho]]. split.
      + revert Hs. apply (expectation_sourced_slots (set_printing_state None)).
        reflexivity.
      + rewrite decide_True by exact Hp. unfold slots; cbn. congruence.
    - apply hoare_ret. intros s Hs. rewrite decide_False by exact Hp. exact Hs. }
  intros _.
  apply (hoare_bind_read _ _ base); [intros s [_ [= Hb _ _]]; exact Hb|].
  unfold ok_slots. case_bool_decide as Hb.
  - apply hoare_modify. intros s [Hs [= _ Hp Ho]]. split.
    + revert Hs. apply (expectation_sourced_slots (set_base_state READY)).
      reflexivity.
    + rewrite decide_True by exact Hb. unfold slots; cbn. congruence.
  - apply hoare_ret. intros s Hs. rewrite decide_False by exact Hb. exact Hs.
Qed.

(** *** Dispatching a line *)

Lemma bind_unit_ret (m : M unit) self : bind m (fun _ => ret tt) self = m self.
Proof.
  unfold bind, ret. destruct (m self) as [s1 t1 [[]|e]]; [|reflexivity].
  rewrite app_nil_r. reflexivity.
Qed.

Lemma dispatch_skip pattern handler handlers line self :
  matches pattern line = false ->
  dispatch ((pattern, handler) :: handlers) line self = dispatch handlers line self.
Proof.
  intros H.
  change (dispatch ((pattern, handler) :: handlers) line)
    with ((if matches pattern line then handler else ret tt) ;;
          dispatch handlers line).
  rewrite H, bind_ret. reflexivity.
Qed.

Lemma dispatch_no_match handlers line self :
  Forall (fun h => matches (fst h) line = false) handlers ->
  dispatch handlers line self = ret tt self.
Proof.
  induction 1 as [|[pattern handler] handlers Hh _ IH]; [reflexivity|].
  cbn in Hh. rewrite dispatch_skip by exact Hh. exact IH.
Qed.

Lemma dispatch_last_match pattern handler handlers line self :
  matches pattern line = true ->
  Forall (fun h => matches (fst h) line = false) handlers ->
  dispatch ((pattern, handler) :: handlers) line self = handler self.
Proof.
  intros H Hrest.
  change (dispatch ((pattern, handler) :: handlers) line)
    with ((if matches pattern line then handler else ret tt) ;;
          dispatch handlers line).
  rewrite H. unfold bind.
  destruct (handler self) as [s1 t1 [[]|e]]; [|reflexivity].
  rewrite (dispatch_no_match handlers line s1 Hrest). cbn.
  rewrite app_nil_r. reflexivity.
Qed.

Ltac no_other_match :=
  repeat (apply List.Forall_cons; [reflexivity|]); apply List.Forall_nil.

Lemma receive_ok self : receive_line "ok" self = ok self.
Proof.
  unfold receive_line, output_handlers.
  apply dispatch_last_match; [reflexivity | no_other_match].
Qed.

(** C4: the line [ok] runs the [ok] method and nothing else; the method
    leaves the override slot empty whatever its outcome; when the
    expectation installed at entry, if any, is sourced, the method returns
    with the override slot empty, the printing slot emptied if it was
    [FINISHED] and kept otherwise, and the base slot [READY] if it was
    [BUSY] and kept otherwise; and from [printing = FINISHED], no override,
    [base = READY] and no expectation installed, the line sends one signal,
    for [READY], with the source [MARLIN]. *)
Theorem ok_line_effect :
  (forall self : StateManager, receive_line "ok" self = ok self) /\
  (forall self : StateManager, override_state (final (ok self)) = None) /\
  (forall self : StateManager,
      (forall change, expected_state_change self = Some change -> sourced change) ->
      exists self' events,
        ok self = mkRun self' events (Returned tt) /\
        override_state self' = None /\
        printing_state self' =
          (if decide (printing_state self = Some FINISHED) then None
           else printing_state self) /\
        base_state self' =
          (if decide (base_state self = BUSY) then READY else base_state self)) /\
  (forall self : StateManager,
      printing_state self = Some FINISHED ->
      override_state self = None ->
      base_state self = READY ->
      current_state self = FINISHED ->
      expected_state_change self = None ->
      let self' := after_change (set_printing_state None self) in
      receive_line "ok" self =
      mkRun self' [StateChangedSignal self' None (Some "MARLIN")] (Returned tt) /\
      current_state self' = READY).
Proof.
  split; [exact receive_ok|]. split; [exact ok_clears_override|]. split.
  - intros self Hs.
    destruct (ok_hoare (slots self) self) as ([] & self' & events & E & _ & Hslots).
    { split; [exact Hs | reflexivity]. }
    exists self', events. split; [exact E|].
    unfold slots, ok_slots in Hslots. injection Hslots as Hb Hp Ho. auto.
  - intros [base printing override flag last current expected]; cbn.
    intros -> -> -> -> ->. split; [|reflexivity].
    vm_compute. reflexivity.
Qed.

(** *** Lines that match the error pattern *)

Lemma strip_prefix_Some w : forall s s',
  strip_prefix w s = Some s' <-> s = w +:+ s'.
Proof.
  induction w as [|a w IH]; intros s s'; cbn.
  - change ("" +:+ s') with s'. split; congruence.
  - change (String a w +:+ s') with (String a (w +:+ s')).
    destruct s as [|b s]; [split; discriminate|].
    destruct (Ascii.eqb_spec a b) as [->|Hne].
    + rewrite IH. split; congruence.
    + split; [discriminate | congruence].
Qed.

Lemma star_loop_accepts {R} step (k : bool -> string -> captures -> option R) fuel :
  (forall b s c, is_Some (k b s c)) ->
  forall b s c, is_Some (star_loop step k fuel b s c).
Proof.
  intros Hk b s c. destruct fuel as [|fuel]; cbn [star_loop]; [apply Hk|].
  destruct (step b s c _); [eauto | apply Hk].
Qed.

Lemma star_accepts {R} r (k : bool -> string -> captures -> option R) :
  (forall b s c, is_Some (k b s c)) ->
  forall b s c, is_Some (exec (Star r) b s c k).
Proof. intros Hk b s c. apply star_loop_accepts, Hk. Qed.

(** The matcher only looks at what its continuation returns. *)
Lemma star_loop_ext {R} step (k1 k2 : bool -> string -> captures -> option R) :
  (forall b s c ka kb, (forall b' s' c', ka b' s' c' = kb b' s' c') ->
                       step b s c ka = step b s c kb) ->
  (forall b s c, k1 b s c = k2 b s c) ->
  forall fuel b s c, star_loop step k1 fuel b s c = star_loop step k2 fuel b s c.
Proof.
  intros Hstep Hk. induction fuel as [|fuel IH]; intros b s c; cbn [star_loop];
    [apply Hk|].
  rewrite (Hstep b s c _
             (fun b' s' c' =>
                if (String.length s' <? String.length s)%nat
                then star_loop step k2 fuel b' s' c' else None)).
  - rewrite Hk. reflexivity.
  - intros b' s' c'. destruct (_ <? _)%nat; [apply IH | reflexivity].
Qed.

Lemma exec_ext {R} r : forall (k1 k2 : bool -> string -> captures -> option R),
  (forall b s c, k1 b s c = k2 b s c) ->
  forall b s c, exec r b s c k1 = exec r b s c k2.
Proof.
  induction r as [| |w| | |r IH|r1 IH1 r2 IH2|r1 IH1 r2 IH2|i r IH];
    intros k1 k2 Hk b s c; cbn [exec].
  - destruct b; [apply Hk | reflexivity].
  - destruct (at_end s); [apply Hk | reflexivity].
  - destruct (strip_prefix w s); [apply Hk | reflexivity].
  - destruct s as [|a s]; [reflexivity|]. destruct (is_newline a); [reflexivity | apply Hk].
  - destruct s as [|a s]; [reflexivity|]. destruct (is_digit a); [apply Hk | reflexivity].
  - apply star_loop_ext; [|exact Hk].
    intros b0 s0 c0 ka kb Hab. apply IH, Hab.
  - apply IH1. intros b' s' c'. apply IH2, Hk.
  - rewrite (IH1 k1 k2 Hk), (IH2 k1 k2 Hk). reflexivity.
  - apply IH. intros b' s' c'. apply Hk.
Qed.

(** Fuel above the length of the subject makes no difference. *)
Lemma star_loop_fuel {R} r (k : bool -> string -> captures -> option R) :
  forall fuel1 fuel2 b s c,
    (String.length s < fuel1)%nat -> (String.length s < fuel2)%nat ->
    star_loop (exec r) k fuel1 b s c = star_loop (exec r) k fuel2 b s c.
Proof.
  induction fuel1 as [|fuel1 IH]; intros fuel2 b s c H1 H2; [lia|].
  destruct fuel2 as [|fuel2]; [lia|]. cbn [star_loop].
  rewrite (exec_ext r _
             (fun b' s' c' =>
                if (String.length s' <? String.length s)%nat
                then star_loop (exec r) k fuel2 b' s' c' else None)).
  - reflexivity.
  - intros b' s' c'. destruct (Nat.ltb_spec (String.length s') (String.length s));
      [apply IH; lia | reflexivity].
Qed.

(** The equation of the greedy star: one more iteration that consumes
    something and then the star again, or else the continuation. *)
Lemma exec_Star {R} r (k : bool -> string -> captures -> option R) b s c :
  exec (Star r) b s c k =
  match exec r b s c
          (fun b' s' c' =>
             if (String.length s' <? String.length s)%nat
             then exec (Star r) b' s' c' k else None) with
  | Some m => Some m
  | None => k b s c
  end.
Proof.
  cbn [exec star_loop].
  rewrite (exec_ext r _
             (fun b' s' c' =>
                if (String.length s' <? String.length s)%nat
                then star_loop (exec r) k (S (String.length s')) b' s' c'
                else None)).
  - reflexivity.
  - intros b' s' c'. destruct (Nat.ltb_spec (String.length s') (String.length s));
      [apply star_loop_fuel; lia | reflexivity].
Qed.

Lemma strip_prefix_append w s : strip_prefix w (w +:+ s) = Some s.
Proof. apply strip_prefix_Some. reflexivity. Qed.

Lemma re_match_ERROR_REGEX line :
  re_match ERROR_REGEX line =
  match strip_prefix "Error:Printer stopped due to errors" line with
  | Some (String c s1) =>
      if is_newline c then None
      else
        match strip_prefix " Fix the error and use M999 to restart" s1 with
        | Some rest =>
            exec (Star AnyChar) false rest [] (fun _ _ caps => Some caps)
        | None => None
        end
  | _ => None
  end.
Proof. reflexivity. Qed.

Lemma matches_ERROR_REGEX line :
  matches ERROR_REGEX line = true <->
  exists c rest,
    line = "Error:Printer stopped due to errors"
           +:+ String c (" Fix the error and use M999 to restart" +:+ rest) /\
    c <> newline.
Proof.
  unfold matches. rewrite re_match_ERROR_REGEX.
  split.
  - destruct (strip_prefix _ line) as [s1|] eqn:E1; [|discriminate].
    apply strip_prefix_Some in E1.
    destruct s1 as [|c s1]; [discriminate|].
    unfold is_newline. destruct (Ascii.eqb_spec c newline) as [->|Hc]; [discriminate|].
    destruct (strip_prefix _ s1) as [rest|] eqn:E2; [|discriminate].
    apply strip_prefix_Some in E2. intros _. exists c, rest. subst. auto.
  - intros (c & rest & -> & Hc).
    rewrite strip_prefix_append. unfold is_newline.
    destruct (Ascii.eqb_spec c newline) as [->|_]; [contradiction|].
    rewrite strip_prefix_append.
    destruct (star_accepts AnyChar (fun _ _ caps => Some caps)
                (fun _ _ c => ltac:(eauto)) false rest []) as [m ->].
    reflexivity.
Qed.

Lemma receive_error line self :
  matches ERROR_REGEX line = true -> receive_line line self = error self.
Proof.
  intros H. pose proof H as H'. apply matches_ERROR_REGEX in H'.
  destruct H' as (c & rest & -> & _).
  unfold receive_line, output_handlers.
  do 8 (rewrite dispatch_skip by reflexivity).
  apply dispatch_last_match; [exact H | constructor].
Qed.

(** C6, amended: the lines that run the [error] method are those that match
    the pattern of the code, that is, those that begin with
    [Error:Printer stopped due to errors], one character that is not a
    newline, and [ Fix the error and use M999 to restart]; such a line runs
    the [error] method and nothing else, and leaves [ERROR] in the override
    slot whatever the outcome of the call. *)
Theorem error_line_sets_override :
  (forall line,
      matches ERROR_REGEX line = true <->
      exists c rest,
        line = "Error:Printer stopped due to errors"
               +:+ String c (" Fix the error and use M999 to restart" +:+ rest) /\
        c <> newline) /\
  (forall line (self : StateManager),
      matches ERROR_REGEX line = true ->
      receive_line line self = error self /\
      override_state (final (receive_line line self)) = Some ERROR).
Proof.
  split; [exact matches_ERROR_REGEX|].
  intros line self H. rewrite (receive_error line self H).
  split; [reflexivity|].
  assert (Hs := error_slots_to self). unfold slots in Hs.
  injection Hs as _ _ Ho. exact Ho.
Qed.

(** *** The poller *)

Lemma printing_without_effect self :
  printing_state self <> None ->
  current_state self = get_state self ->
  printing self = mkRun self [] (Returned tt).
Proof.
  intros Hp Hs. unfold printing, state_influencer.
  set (func := bind (gets printing_state) _).
  assert (Hfunc : forall s, printing_state s <> None ->
                            func s = mkRun s [] (Returned tt)).
  { intros s H. unfold func. rewrite bind_gets.
    rewrite bool_decide_false by (intros E; apply H; exact E). reflexivity. }
  rewrite bind_gets.
  destruct (expected_state_change self) as [change|] eqn:He;
    unfold expect_change, stop_expecting_change.
  - rewrite bind_ret. cbv beta.
    unfold bind. rewrite (Hfunc self Hp).
    rewrite (state_may_have_changed_same _ (eq_sym Hs)).
    reflexivity.
  - rewrite bind_modify. cbv beta.
    unfold bind. rewrite (Hfunc (set_expected_state_change _ self) Hp).
    rewrite (state_may_have_changed_same (set_expected_state_change _ self)
               (eq_sym Hs)).
    destruct self; cbn in He; subst; reflexivity.
Qed.

(** C7: a poll that is not skipped, with the printing slot [PAUSED] and the
    stored state in sync, whose reply to [M27] matches the first group of
    the pattern, writes [M27], sends no signal and leaves the manager as it
    was: it calls the [printing] method, which does nothing there. *)
Theorem poll_while_paused_changes_nothing :
  forall (self : StateManager) progress_reply lines m,
    printing_state self = Some PAUSED ->
    is_busy self = false ->
    current_state self = get_state self ->
    first_match SD_PRINTING_REGEX lines = Some m ->
    is_Some (fst (groups m)) ->
    update_state progress_reply lines self =
      mkRun self [SerialWrite "M27"] (Returned tt) /\
    printing self = mkRun self [] (Returned tt).
Proof.
  intros self progress_reply lines m Hp Hb Hs Hm Hg.
  assert (Hnoop : printing self = mkRun self [] (Returned tt)).
  { apply printing_without_effect; [rewrite Hp; discriminate | exact Hs]. }
  split; [|exact Hnoop].
  unfold update_state. rewrite bind_gets, Hb, bind_gets, Hp.
  rewrite bool_decide_false by discriminate. rewrite bind_ret.
  unfold try_except_else, serial_write_match, bind at 1, emit. rewrite Hm.
  cbn [ret app]. rewrite bind_gets, Hp.
  rewrite (bool_decide_false (Some PAUSED <> Some PAUSED)) by (intros H; apply H; reflexivity).
  rewrite andb_false_r, Hnoop. reflexivity.
Qed.

(** C9: when the busy flag is set or the base slot is [BUSY], a poll writes
    the line [PRUSA PING] and does nothing else: it is that one write, and
    leaves the manager, expectation register included, as it was. *)
Theorem busy_poll_only_pings :
  forall (self : StateManager) progress_reply lines,
    internal_busy self = true \/ base_state self = BUSY ->
    update_state progress_reply lines self = serial_write "PRUSA PING" self /\
    update_state progress_reply lines self =
      mkRun self [SerialWrite "PRUSA PING"] (Returned tt).
Proof.
  intros self progress_reply lines Hbusy.
  assert (Hb : is_busy self = true).
  { unfold is_busy. destruct Hbusy as [-> | ->]; [reflexivity|].
    rewrite bool_decide_true by reflexivity. apply orb_true_r. }
  unfold update_state. rewrite bind_gets, Hb. split; reflexivity.
Qed.

(** *** Construction *)

Lemma construct_keeps_classes c classes :
  classes = class_definitions ->
  fst (construct c classes) = class_definitions /\
  raised_AssertionError (snd (construct c classes)) = false.
Proof. intros ->. destruct c; split; reflexivity. Qed.

(** C10: whatever managers and clients are constructed one after the other,
    starting from the class definitions, the class attributes [instance]
    stay [None] and no construction raises [AssertionError]. *)
Theorem single_instance_guard_never_fires :
  forall cs : list construction,
    fst (construct_all cs class_definitions) = class_definitions /\
    length (snd (construct_all cs class_definitions)) = length cs /\
    Forall (fun o => raised_AssertionError o = false)
      (snd (construct_all cs class_definitions)).
Proof.
  induction cs as [|c cs IH]; cbn.
  - repeat split. constructor.
  - destruct (construct_keeps_classes c class_definitions eq_refl) as [Hc Hr].
    destruct (construct c class_definitions) as [classes' o]; cbn in Hc, Hr.
    subst classes'.
    destruct (construct_all cs class_definitions) as [classes'' os]; cbn in *.
    destruct IH as (-> & Hlen & Hall). repeat split.
    + rewrite Hlen. reflexivity.
    + constructor; assumption.
Qed.

(** *** An expectation without a source *)

(** C5, at the failing input: with [to_states = {PRINTING: None}] installed
    on a new manager, the line that starts a print changes the composed
    state from [READY] to [PRINTING]; the change is classified as expected,
    no source comes out of the attribution, and the call raises
    [AttributeError]: no signal is sent and the expectation stays
    installed. *)
Theorem unsourced_expectation_raises :
  let self := set_expected_state_change (Some unsourced_change) new_manager in
  let self' := set_current_state PRINTING
                 (set_last_state READY (set_printing_state (Some PRINTING) self)) in
  is_expected self' = true /\
  expected_source self' = None /\
  receive_line START_PRINT_LINE self = mkRun self' [] (Raised AttributeError) /\
  expected_state_change self' = Some unsourced_change.
Proof. vm_compute. repeat split; reflexivity. Qed.

(** * Further properties *)

(** *** Properties kept whatever the outcome *)

Lemma preserves_ret {A} P (a : A) : preserves P (ret a).
Proof. intros self H. exact H. Qed.

Lemma preserves_raise {A} P e : preserves P (@raise A e).
Proof. intros self H. exact H. Qed.

Lemma preserves_gets {A} P (f : StateManager -> A) : preserves P (gets f).
Proof. intros self H. exact H. Qed.

Lemma preserves_emit P e : preserves P (emit e).
Proof. intros self H. exact H. Qed.

Lemma preserves_modify (P : StateManager -> Prop) f :
  (forall self, P self -> P (f self)) -> preserves P (modify f).
Proof. intros Hf self H. apply Hf, H. Qed.

Lemma preserves_bind {A B} P (m : M A) (f : A -> M B) :
  preserves P m -> (forall a, preserves P (f a)) -> preserves P (bind m f).
Proof.
  intros Hm Hf self H. unfold bind. specialize (Hm self H).
  destruct (m self) as [s1 t1 [a|e]]; cbn in *; [|exact Hm].
  specialize (Hf a s1 Hm). destruct (f a s1) as [s2 t2 r2]; exact Hf.
Qed.

Lemma preserves_try {A B} P (body : M A) caught (handler : M B) orelse :
  preserves P body -> preserves P handler -> (forall a, preserves P (orelse a)) ->
  preserves P (try_except_else body caught handler orelse).
Proof.
  intros Hb Hh Ho self H. unfold try_except_else. specialize (Hb self H).
  destruct (body self) as [s1 t1 [a|e]]; cbn in *.
  - specialize (Ho a s1 Hb). destruct (orelse a s1) as [s2 t2 r2]; exact Ho.
  - destruct (decide (e = caught)); [|exact Hb].
    specialize (Hh s1 Hb). destruct (handler s1) as [s2 t2 r2]; exact Hh.
Qed.

Lemma preserves_of_slots {A} (Q : States * option States * option States -> Prop)
    (m : M A) :
  keeps_slots m -> preserves (fun self => Q (slots self)) m.
Proof. intros Hm self H. rewrite (Hm self). exact H. Qed.

Lemma state_may_have_changed_well_formed : preserves well_formed state_may_have_changed.
Proof.
  apply (preserves_of_slots slots_well_formed),
    state_may_have_changed_keeps_slots.
Qed.

Lemma PRINTING_STATES_elements p :
  p ∈ PRINTING_STATES <-> p = PRINTING \/ p = PAUSED \/ p = FINISHED.
Proof.
  unfold PRINTING_STATES. rewrite !elem_of_union, !elem_of_singleton. tauto.
Qed.

Ltac well_formed_modify :=
  apply preserves_modify;
  let s := fresh "s" in
  let Hb := fresh "Hb" in
  let Hp := fresh "Hp" in
  let Ho := fresh "Ho" in
  intros s (Hb & Hp & Ho);
  unfold well_formed, slots_well_formed, slots; cbn;
  repeat split;
  first [ exact Hb | exact Hp | exact Ho | tauto
        | let E := fresh "E" in
          intros ? E; injection E as E; subst;
          first [apply PRINTING_STATES_elements; tauto | tauto]
        | discriminate ].

Ltac well_formed_body :=
  repeat first
    [ apply state_may_have_changed_well_formed
    | apply preserves_gets | apply preserves_ret | apply preserves_raise
    | apply preserves_emit
    | apply preserves_bind; [|intros ?]
    | apply preserves_try; [| |intros ?]
    | match goal with |- preserves _ (if ?b then _ else _) => destruct b end
    | match goal with |- preserves _ (match ?b with _ => _ end) => destruct b end
    | well_formed_modify ].

Lemma state_influencer_well_formed state_change (func : M unit) :
  preserves well_formed func ->
  preserves well_formed (state_influencer state_change func).
Proof.
  intros Hfunc. unfold state_influencer, expect_change, stop_expecting_change.
  apply preserves_bind; [apply preserves_gets|]. intros expected.
  apply preserves_bind.
  { destruct expected, state_change; well_formed_body. }
  intros _. apply preserves_bind; [exact Hfunc|]. intros _.
  apply preserves_bind; [apply state_may_have_changed_well_formed|]. intros _.
  destruct expected, state_change; well_formed_body.
Qed.

Lemma mutators_well_formed m : In m mutators -> preserves well_formed m.
Proof.
  unfold mutators. cbn.
  intros H; repeat (destruct H as [<- | H]); [..|destruct H];
    (apply state_influencer_well_formed; well_formed_body).
Qed.

Lemma update_state_well_formed progress_reply lines :
  preserves well_formed (update_state progress_reply lines).
Proof.
  assert (Hm := mutators_well_formed).
  unfold mutators in Hm. cbn in Hm.
  unfold update_state, serial_write, serial_write_match, insert_progress,
    expect_change.
  apply preserves_bind; [apply preserves_gets|]. intros [|]; [apply preserves_emit|].
  apply preserves_bind; [apply preserves_gets|]. intros printing_first.
  apply preserves_bind.
  - case_bool_decide; [|apply preserves_ret].
    apply preserves_try; [well_formed_body | well_formed_body |].
    intros progress. destruct (progress =? 100)%Z; [|apply preserves_ret].
    apply preserves_bind; [well_formed_body|]. intros _. apply Hm. tauto.
  - intros _. apply preserves_try; [well_formed_body | well_formed_body |].
    intros m. apply preserves_bind; [apply preserves_gets|]. intros printing_then.
    destruct (_ && _); apply Hm; tauto.
Qed.

Lemma dispatch_preserves P handlers line :
  Forall (fun h => preserves P (snd h)) handlers ->
  preserves P (dispatch handlers line).
Proof.
  induction 1 as [|[pattern handler] handlers Hh _ IH]; cbn.
  - apply preserves_ret.
  - apply preserves_bind; [|intros _; exact IH].
    destruct (matches pattern line); [exact Hh | apply preserves_ret].
Qed.

Lemma receive_line_well_formed line : preserves well_formed (receive_line line).
Proof.
  apply dispatch_preserves. unfold output_handlers.
  repeat (apply List.Forall_cons;
          [cbn; apply mutators_well_formed; unfold mutators; cbn; tauto|]).
  apply List.Forall_nil.
Qed.

Lemma step_well_formed i : preserves well_formed (step i).
Proof.
  destruct i; cbn.
  - apply receive_line_well_formed.
  - apply update_state_well_formed.
  - intros self H. exact H.
  - intros self H. exact H.
  - intros self H. exact H.
Qed.

(** X1: the slots only ever hold the values of their kind.  After any
    history of lines, polls, installed expectations and busy flags on a new
    manager, raising calls included, the base slot is [READY] or [BUSY],
    the printing slot is empty or one of [PRINTING_STATES], the override
    slot is empty or [ATTENTION] or [ERROR]. *)
Theorem slots_stay_well_formed :
  forall inputs : list input,
    let self := fst (run_inputs inputs new_manager) in
    (base_state self = READY \/ base_state self = BUSY) /\
    (forall p, printing_state self = Some p -> p ∈ PRINTING_STATES) /\
    (forall o, override_state self = Some o -> o = ATTENTION \/ o = ERROR).
Proof.
  intros inputs.
  assert (H : forall self, well_formed self ->
                           well_formed (fst (run_inputs inputs self))).
  { induction inputs as [|i inputs IH]; intros self Hw; cbn; [exact Hw|].
    specialize (IH _ (step_well_formed i self Hw)).
    destruct (run_inputs inputs (final (step i self))). exact IH. }
  apply (H new_manager). unfold well_formed, slots_well_formed, new_manager; cbn.
  repeat split; [tauto | discriminate | discriminate].
Qed.

(** *** What every event of a history satisfies *)

Section Events.

Variable P : event -> Prop.
Hypothesis P_write : forall message, P (SerialWrite message).
Hypothesis P_progress : P InsertProgress.
Hypothesis P_signal : events_satisfy P state_may_have_changed.

Lemma events_bind {A B} (m : M A) (f : A -> M B) :
  events_satisfy P m -> (forall a, events_satisfy P (f a)) ->
  events_satisfy P (bind m f).
Proof.
  intros Hm Hf self. unfold bind. specialize (Hm self).
  destruct (m self) as [s1 t1 [a|e]]; cbn in *; [|exact Hm].
  specialize (Hf a s1). destruct (f a s1) as [s2 t2 r2]; cbn in *.
  apply Forall_app; split; assumption.
Qed.

Lemma events_try {A B} (body : M A) caught (handler : M B) orelse :
  events_satisfy P body -> events_satisfy P handler ->
  (forall a, events_satisfy P (orelse a)) ->
  events_satisfy P (try_except_else body caught handler orelse).
Proof.
  intros Hb Hh Ho self. unfold try_except_else. specialize (Hb self).
  destruct (body self) as [s1 t1 [a|e]]; cbn in *.
  - specialize (Ho a s1). destruct (orelse a s1) as [s2 t2 r2]; cbn in *.
    apply Forall_app; split; assumption.
  - destruct (decide (e = caught)); [|exact Hb].
    specialize (Hh s1). destruct (handler s1) as [s2 t2 r2]; cbn in *.
    apply Forall_app; split; assumption.
Qed.

Lemma events_silent {A} (m : M A) :
  (forall self, trace (m self) = []) -> events_satisfy P m.
Proof. intros H self. rewrite H. constructor. Qed.

Lemma events_emit e : P e -> events_satisfy P (emit e).
Proof. intros H self. cbn. repeat constructor. exact H. Qed.

Ltac events_body :=
  repeat first
    [ apply P_signal
    | apply events_silent; intros ?; reflexivity
    | apply events_emit; first [apply P_write | apply P_progress]
    | apply events_bind; [|intros ?]
    | apply events_try; [| |intros ?]
    | match goal with |- events_satisfy _ (if ?b then _ else _) => destruct b end
    | match goal with |- events_satisfy _ (match ?b with _ => _ end) => destruct b end ].

Lemma state_influencer_events state_change (func : M unit) :
  events_satisfy P func -> events_satisfy P (state_influencer state_change func).
Proof.
  intros Hfunc. unfold state_influencer, expect_change, stop_expecting_change.
  apply events_bind; [events_body|]. intros expected.
  apply events_bind; [destruct expected, state_change; events_body|].
  intros _. apply events_bind; [exact Hfunc|]. intros _.
  apply events_bind; [apply P_signal|]. intros _.
  destruct expected, state_change; events_body.
Qed.

Lemma mutators_events m : In m mutators -> events_satisfy P m.
Proof.
  unfold mutators. cbn.
  intros H; repeat (destruct H as [<- | H]); [..|destruct H];
    (apply state_influencer_events; events_body).
Qed.

Lemma update_state_events progress_reply lines :
  events_satisfy P (update_state progress_reply lines).
Proof.
  assert (Hm := mutators_events).
  unfold mutators in Hm. cbn in Hm.
  unfold update_state, serial_write, serial_write_match, insert_progress,
    expect_change.
  apply events_bind; [events_body|]. intros [|]; [events_body|].
  apply events_bind; [events_body|]. intros printing_first.
  apply events_bind.
  - case_bool_decide; [|events_body].
    apply events_try; [events_body | events_body |].
    intros progress. destruct (progress =? 100)%Z; [|events_body].
    apply events_bind; [events_body|]. intros _. apply Hm. tauto.
  - intros _. apply events_try; [events_body | events_body |].
    intros m. apply events_bind; [events_body|]. intros printing_then.
    destruct (_ && _); apply Hm; tauto.
Qed.

Lemma dispatch_events handlers line :
  Forall (fun h => events_satisfy P (snd h)) handlers ->
  events_satisfy P (dispatch handlers line).
Proof.
  induction 1 as [|[pattern handler] handlers Hh _ IH]; cbn.
  - events_body.
  - apply events_bind; [|intros _; exact IH].
    destruct (matches pattern line); [exact Hh | events_body].
Qed.

Lemma step_events i : events_satisfy P (step i).
Proof.
  destruct i; cbn [step].
  - unfold receive_line. apply dispatch_events. unfold output_handlers.
    repeat (apply List.Forall_cons;
            [cbn; apply mutators_events; unfold mutators; cbn; tauto|]).
    apply List.Forall_nil.
  - apply update_state_events.
  - events_body.
  - events_body.
  - events_body.
Qed.

Lemma run_inputs_events inputs : forall self,
  Forall P (snd (run_inputs inputs self)).
Proof.
  induction inputs as [|i inputs IH]; intros self; cbn.
  - constructor.
  - specialize (IH (final (step i self))).
    destruct (run_inputs inputs (final (step i self))) as [self' events]; cbn in *.
    apply Forall_app; split; [apply step_events | exact IH].
Qed.

End Events.

Lemma state_may_have_changed_is_change :
  events_satisfy signal_is_change state_may_have_changed.
Proof.
  intros self.
  destruct (decide (get_state self = current_state self)) as [Heq|Hne].
  { rewrite (state_may_have_changed_same self Heq). constructor. }
  assert (Hc : last_state (after_change self) <> current_state (after_change self)).
  { cbn. intros H. apply Hne. symmetry. exact H. }
  destruct (expected_state_change self) as [change|] eqn:He.
  - rewrite (state_may_have_changed_attributes self change He Hne).
    destruct (classified_expected _ _ _);
      [destruct (attributed_source _ _ _)|]; cbn; repeat constructor; exact Hc.
  - rewrite (state_may_have_changed_unexpected self He Hne).
    cbn; repeat constructor; exact Hc.
Qed.

(** X2: a signal is only sent for a change.  In any history of any manager,
    raising calls included, the sender of every [state_changed] signal has
    a [last_state] that differs from its [current_state]. *)
Theorem signals_report_changes :
  forall inputs (self : StateManager),
    Forall (fun e => match e with
                     | StateChangedSignal sender _ _ =>
                         last_state sender <> current_state sender
                     | _ => True
                     end) (snd (run_inputs inputs self)).
Proof.
  intros inputs self.
  apply (run_inputs_events signal_is_change); try exact I.
  - intros message. exact I.
  - exact state_may_have_changed_is_change.
Qed.

(** *** The slots after the other methods *)

Lemma printing_slots_to : slots_to printing_slots printing.
Proof.
  apply state_influencer_slots. intros self. rewrite bind_gets.
  unfold slots, printing_slots. case_bool_decide as Hp.
  - rewrite decide_True by exact Hp. reflexivity.
  - rewrite decide_False by exact Hp. reflexivity.
Qed.

Lemma not_printing_slots_to : slots_to not_printing_slots not_printing.
Proof.
  apply state_influencer_slots. intros self. rewrite bind_gets.
  unfold slots, not_printing_slots. case_bool_decide as Hp; cbn; [reflexivity|].
  rewrite Hp. reflexivity.
Qed.

Lemma finished_slots_to : slots_to finished_slots finished.
Proof.
  apply state_influencer_slots. intros self. rewrite bind_gets.
  unfold slots, finished_slots. case_bool_decide as Hp.
  - rewrite decide_True by exact Hp. reflexivity.
  - rewrite decide_False by exact Hp. reflexivity.
Qed.

Lemma busy_slots_to : slots_to busy_slots busy.
Proof.
  apply state_influencer_slots. intros self. rewrite bind_gets.
  unfold slots, busy_slots. case_bool_decide as Hb.
  - rewrite decide_True by exact Hb. reflexivity.
  - rewrite decide_False by exact Hb. reflexivity.
Qed.

Lemma attention_slots_to : slots_to attention_slots attention.
Proof. apply state_influencer_slots. intros self. reflexivity. Qed.

(** X3: what the methods other than [ok], [paused] and [resumed] make of
    the slots, for every manager and every outcome of the call:
    [printing] fills an empty printing slot with [PRINTING],
    [not_printing] empties it, [finished] turns [PRINTING] into
    [FINISHED], [busy] turns a [READY] base into [BUSY], [attention] and
    [error] set the override; each leaves the rest of the slots as they
    were. *)
Theorem other_mutators_frame :
  forall self : StateManager,
    slots (final (printing self)) =
      (base_state self,
       if decide (printing_state self = None) then Some PRINTING
       else printing_state self,
       override_state self) /\
    slots (final (not_printing self)) =
      (base_state self, None, override_state self) /\
    slots (final (finished self)) =
      (base_state self,
       if decide (printing_state self = Some PRINTING) then Some FINISHED
       else printing_state self,
       override_state self) /\
    slots (final (busy self)) =
      (if decide (base_state self = READY) then BUSY else base_state self,
       printing_state self, override_state self) /\
    slots (final (attention self)) =
      (base_state self, printing_state self, Some ATTENTION) /\
    slots (final (error self)) =
      (base_state self, printing_state self, Some ERROR).
Proof.
  intros self.
  rewrite (printing_slots_to self), (not_printing_slots_to self),
    (finished_slots_to self), (busy_slots_to self), (attention_slots_to self),
    (error_slots_to self).
  repeat split.
Qed.

(** *** Methods whose guard does not hold *)

Lemma state_influencer_without_effect change (func : M unit) self :
  current_state self = get_state self ->
  (forall s, slots s = slots self -> func s = mkRun s [] (Returned tt)) ->
  state_influencer (Some change) func self = mkRun self [] (Returned tt).
Proof.
  intros Hs Hfunc. unfold state_influencer. rewrite bind_gets.
  destruct (expected_state_change self) as [installed|] eqn:He;
    unfold expect_change, stop_expecting_change.
  - rewrite bind_ret. cbv beta.
    unfold bind. rewrite (Hfunc self eq_refl).
    rewrite (state_may_have_changed_same _ (eq_sym Hs)).
    reflexivity.
  - rewrite bind_modify. cbv beta.
    unfold bind. rewrite (Hfunc (set_expected_state_change _ self) eq_refl).
    rewrite (state_may_have_changed_same (set_expected_state_change _ self)
               (eq_sym Hs)).
    destruct self; cbn in He; subst; reflexivity.
Qed.

Lemma mutators_without_effect m g (self : StateManager) :
  In (m, g) mutators_with_slots ->
  current_state self = get_state self ->
  g (slots self) = slots self ->
  m self = mkRun self [] (Returned tt).
Proof.
  unfold mutators_with_slots. cbn.
  intros H Hs Hg;
    repeat (destruct H as [H | H];
            [apply pair_equal_spec in H; destruct H as [<- <-]|]);
    [..|destruct H];
    apply state_influencer_without_effect; try exact Hs;
    intros s Hslots; unfold slots in Hslots, Hg;
    pose proof (f_equal (fun x => fst (fst x)) Hslots) as Eb;
    pose proof (f_equal (fun x => snd (fst x)) Hslots) as Ep;
    pose proof (f_equal snd Hslots) as Eo;
    pose proof (f_equal (fun x => fst (fst x)) Hg) as Gb;
    pose proof (f_equal (fun x => snd (fst x)) Hg) as Gp;
    pose proof (f_equal snd Hg) as Go;
    cbn in Eb, Ep, Eo, Gb, Gp, Go.
  - (* printing *)
    rewrite bind_gets, Ep. case_bool_decide as Hp; [|reflexivity].
    rewrite decide_True in Gp by exact Hp. congruence.
  - (* not_printing *)
    rewrite bind_gets, Ep. case_bool_decide as Hp; [|reflexivity].
    congruence.
  - (* finished *)
    rewrite bind_gets, Ep. case_bool_decide as Hp; [|reflexivity].
    rewrite decide_True in Gp by exact Hp. congruence.
  - (* busy *)
    rewrite bind_gets, Eb. case_bool_decide as Hb; [|reflexivity].
    rewrite decide_True in Gb by exact Hb. congruence.
  - (* paused *)
    rewrite bind_gets, Ep. case_bool_decide as Hp; [|reflexivity].
    rewrite decide_True in Gp by exact Hp. congruence.
  - (* resumed *)
    rewrite bind_gets, Ep. case_bool_decide as Hp; [|reflexivity].
    rewrite decide_True in Gp by exact Hp. congruence.
  - (* ok *)
    rewrite bind_gets, Eo, <- Go.
    rewrite bool_decide_false by (intros E; apply E; reflexivity).
    rewrite bind_ret, bind_gets, Ep.
    case_bool_decide as Hp; [rewrite decide_True in Gp by exact Hp; congruence|].
    rewrite bind_ret, bind_gets, Eb.
    case_bool_decide as Hb; [rewrite decide_True in Gb by exact Hb; congruence|].
    reflexivity.
  - (* attention *)
    destruct s; cbn in *; subst. rewrite <- Go. reflexivity.
  - (* error *)
    destruct s; cbn in *; subst. rewrite <- Go. reflexivity.
Qed.

(** X4: a method whose guard does not hold does nothing at all.  For each
    of the nine state changing methods, on a manager whose stored state is
    in sync and whose slots the method would leave as they are, the call
    returns the manager as it was, expectation register included, and
    sends no signal. *)
Theorem guarded_mutators_do_nothing :
  forall m g (self : StateManager),
    In (m, g) mutators_with_slots ->
    current_state self = get_state self ->
    g (slots self) = slots self ->
    m self = mkRun self [] (Returned tt).
Proof. exact mutators_without_effect. Qed.

(** *** A repeated call *)

Lemma mutators_make_sync m : In m mutators -> makes_sync m.
Proof.
  unfold mutators. cbn.
  intros H; repeat (destruct H as [<- | H]); [..|destruct H].
  - apply printing_makes_sync.
  - apply not_printing_makes_sync.
  - apply finished_makes_sync.
  - apply busy_makes_sync.
  - apply paused_makes_sync.
  - apply resumed_makes_sync.
  - apply ok_makes_sync.
  - apply attention_makes_sync.
  - apply error_makes_sync.
Qed.

Lemma mutators_with_slots_mutators m g :
  In (m, g) mutators_with_slots -> In m mutators.
Proof.
  unfold mutators_with_slots, mutators. cbn.
  intros H;
    repeat (destruct H as [H | H];
            [apply pair_equal_spec in H; destruct H as [<- <-]; tauto|]).
  destruct H.
Qed.

Lemma mutators_slots_idempotent m g x :
  In (m, g) mutators_with_slots -> g (g x) = g x.
Proof.
  unfold mutators_with_slots. cbn.
  intros H;
    repeat (destruct H as [H | H];
            [apply pair_equal_spec in H; destruct H as [<- <-]|]);
    [..|destruct H];
    destruct x as [[base printing_slot] override]; cbn;
    repeat case_decide; congruence.
Qed.

Lemma mutators_returning_slots m g (self : StateManager) :
  In (m, g) mutators_with_slots ->
  expectation_sourced self ->
  exists self' events,
    m self = mkRun self' events (Returned tt) /\ slots self' = g (slots self).
Proof.
  intros Hin Hs.
  assert (Hall : forall m' g', In (m', g') mutators_with_slots ->
                               slots_to g' m' ->
                               exists self' events,
                                 m' self = mkRun self' events (Returned tt) /\
                                 slots self' = g' (slots self)).
  { intros m' g' Hin' Hto.
    destruct (mutators_return m' (mutators_with_slots_mutators _ _ Hin') self Hs)
      as ([] & self' & events & E & _).
    exists self', events. split; [exact E|].
    specialize (Hto self). rewrite E in Hto. exact Hto. }
  pose proof Hin as Hcases. unfold mutators_with_slots in Hcases. cbn in Hcases.
  repeat (destruct Hcases as [Hc | Hcases];
          [apply pair_equal_spec in Hc; destruct Hc as [<- <-]|]);
    [..|destruct Hcases].
  - apply (Hall _ _ Hin), printing_slots_to.
  - apply (Hall _ _ Hin), not_printing_slots_to.
  - apply (Hall _ _ Hin), finished_slots_to.
  - apply (Hall _ _ Hin), busy_slots_to.
  - apply (Hall _ _ Hin), paused_slots_to.
  - apply (Hall _ _ Hin), resumed_slots_to.
  - destruct (ok_hoare (slots self) self) as ([] & self' & events & E & _ & Hslots).
    { split; [exact Hs | reflexivity]. }
    eauto.
  - apply (Hall _ _ Hin), attention_slots_to.
  - apply (Hall _ _ Hin). intros s. rewrite (error_slots_to s).
    unfold slots, error_slots. reflexivity.
Qed.

(** X5: a repeated call is harmless.  For each of the nine state changing
    methods, when the expectation installed at entry, if any, is sourced,
    the call returns, and the same call on the manager that it leaves
    returns that manager as it is and sends no signal: the slots are
    already what the method makes of them. *)
Theorem mutators_are_idempotent :
  forall m g (self : StateManager),
    In (m, g) mutators_with_slots ->
    (forall change, expected_state_change self = Some change -> sourced change) ->
    exists self' events,
      m self = mkRun self' events (Returned tt) /\
      slots self' = g (slots self) /\
      m self' = mkRun self' [] (Returned tt).
Proof.
  intros m g self Hin Hs.
  destruct (mutators_returning_slots m g self Hin Hs) as (self' & events & E & Hslots).
  exists self', events. split; [exact E|]. split; [exact Hslots|].
  apply (mutators_without_effect m g self' Hin).
  - destruct (mutators_make_sync m (mutators_with_slots_mutators _ _ Hin) self)
      as [Hsync _].
    rewrite E in Hsync. exact Hsync.
  - rewrite Hslots. apply (mutators_slots_idempotent m g _ Hin).
Qed.

(** *** Changes under an override *)

Lemma get_state_override (self : StateManager) o :
  override_state self = Some o -> get_state self = o.
Proof. intros H. unfold get_state. rewrite H. reflexivity. Qed.

Lemma state_influencer_masked change (func : M unit) f self :
  (forall s, func s = mkRun (f s) [] (Returned tt)) ->
  (forall s, override_state (f s) = override_state s) ->
  (forall s, current_state (f s) = current_state s) ->
  (forall s, expected_state_change (f s) = expected_state_change s) ->
  current_state self = get_state self ->
  override_state self <> None ->
  exists self',
    state_influencer (Some change) func self = mkRun self' [] (Returned tt) /\
    current_state self' = current_state self /\
    expected_state_change self' = expected_state_change self.
Proof.
  intros Hfunc Ho Hc He Hs Hover.
  destruct (override_state self) as [o|] eqn:Eo; [clear Hover | contradiction].
  assert (Hsame : forall entry,
             override_state entry = Some o -> current_state entry = o ->
             state_may_have_changed (f entry) = mkRun (f entry) [] (Returned tt)).
  { intros entry Eo' Ec. apply state_may_have_changed_same.
    rewrite (get_state_override (f entry) o) by (rewrite Ho; exact Eo').
    rewrite Hc. symmetry. exact Ec. }
  assert (Hcur : current_state self = o).
  { rewrite Hs. apply get_state_override, Eo. }
  unfold state_influencer. rewrite bind_gets.
  destruct (expected_state_change self) as [installed|] eqn:Ee;
    unfold expect_change, stop_expecting_change.
  - rewrite bind_ret. cbv beta. unfold bind. rewrite Hfunc.
    rewrite (Hsame self Eo Hcur). cbn.
    exists (f self). split; [reflexivity|]. split; [apply Hc|].
    rewrite He. exact Ee.
  - rewrite bind_modify. cbv beta. unfold bind. rewrite Hfunc.
    rewrite (Hsame (set_expected_state_change (Some change) self) Eo Hcur). cbn.
    eexists. split; [reflexivity|]. split; [|reflexivity].
    cbn. rewrite Hc. reflexivity.
Qed.

Ltac masked_func f :=
  apply (state_influencer_masked _ _ f);
  [ intros s; rewrite bind_gets; cbv beta; destruct (bool_decide _); reflexivity
  | intros s; cbv beta; destruct (bool_decide _); reflexivity
  | intros s; cbv beta; destruct (bool_decide _); reflexivity
  | intros s; cbv beta; destruct (bool_decide _); reflexivity
  | assumption | assumption ].

(** X6: an override hides the printer's other changes.  While the override
    slot is set and the stored state is in sync, [printing],
    [not_printing], [finished], [busy], [paused] and [resumed] return
    without a signal, whatever expectation is installed; the stored state
    stays what it was, and so does the expectation register: an expectation
    that a caller installed for the call is not consumed. *)
Theorem override_masks_changes :
  forall m (self : StateManager),
    In m masked_mutators ->
    current_state self = get_state self ->
    override_state self <> None ->
    exists self',
      m self = mkRun self' [] (Returned tt) /\
      current_state self' = current_state self /\
      expected_state_change self' = expected_state_change self.
Proof.
  unfold masked_mutators. cbn.
  intros m self H Hs Ho; repeat (destruct H as [<- | H]); [..|destruct H].
  - masked_func (fun s => if bool_decide (printing_state s = None)
                          then set_printing_state (Some PRINTING) s else s).
  - masked_func (fun s => if bool_decide (printing_state s <> None)
                          then set_printing_state None s else s).
  - masked_func (fun s => if bool_decide (printing_state s = Some PRINTING)
                          then set_printing_state (Some FINISHED) s else s).
  - masked_func (fun s => if bool_decide (base_state s = READY)
                          then set_base_state BUSY s else s).
  - masked_func (fun s => if bool_decide (printing_state s = Some PRINTING)
                          then set_printing_state (Some PAUSED) s else s).
  - masked_func (fun s => if bool_decide (printing_state s = Some PAUSED)
                          then set_printing_state (Some PRINTING) s else s).
Qed.

(** *** The signals of one call of [ok] *)

Lemma bind_assoc {A B C} (m : M A) (f : A -> M B) (g : B -> M C) self :
  bind (bind m f) g self = bind m (fun a => bind (f a) g) self.
Proof.
  unfold bind. destruct (m self) as [s1 t1 [a|e]]; [|reflexivity].
  destruct (f a s1) as [s2 t2 [b|e]]; [|reflexivity].
  destruct (g b s2) as [s3 t3 r3]. rewrite app_assoc. reflexivity.
Qed.

Lemma bind_run {A B} (m : M A) (k : A -> M B) self self' events a :
  m self = mkRun self' events (Returned a) ->
  bind m k self =
  mkRun (final (k a self')) (events ++ trace (k a self'))%list (result (k a self')).
Proof. intros H. unfold bind. rewrite H. destruct (k a self'); reflexivity. Qed.

Lemma bind_raised {A B} (m : M A) (k : A -> M B) self self' events e :
  m self = mkRun self' events (Raised e) ->
  bind m k self = mkRun self' events (Raised e).
Proof. intros H. unfold bind. rewrite H. reflexivity. Qed.

Lemma signals_app events1 events2 :
  signals (events1 ++ events2) = (signals events1 ++ signals events2)%list.
Proof.
  induction events1 as [|[| |sender cid src] events1 IH]; cbn;
    [reflexivity | exact IH | exact IH | rewrite IH; reflexivity].
Qed.

(** The three ways [state_may_have_changed] can end. *)
Lemma state_may_have_changed_cases self :
  state_may_have_changed self = mkRun self [] (Returned tt) \/
  (exists command_id source,
      state_may_have_changed self =
      mkRun (after_change self)
        [StateChangedSignal (after_change self) command_id source] (Returned tt) /\
      (expected_state_change self = None -> command_id = None /\ source = None)) \/
  (exists self',
      state_may_have_changed self = mkRun self' [] (Raised AttributeError) /\
      expected_state_change self <> None).
Proof.
  destruct (decide (get_state self = current_state self)) as [Heq|Hne].
  { left. apply state_may_have_changed_same, Heq. }
  right. destruct (expected_state_change self) as [change|] eqn:He.
  - rewrite (state_may_have_changed_attributes self change He Hne).
    destruct (classified_expected _ _ _);
      [destruct (attributed_source _ _ _)|].
    + left. eexists _, _. split; [reflexivity | discriminate].
    + right. eexists. split; [reflexivity | discriminate].
    + left. eexists _, _. split; [reflexivity | discriminate].
  - left. rewrite (state_may_have_changed_unexpected self He Hne).
    eexists _, _. split; [reflexivity | tauto].
Qed.

Lemma ok_rest_runs self :
  exists self',
    ok_rest self = mkRun self' [] (Returned tt) /\
    expected_state_change self' = expected_state_change self.
Proof.
  unfold ok_rest. rewrite bind_gets.
  case_bool_decide; [rewrite bind_modify | rewrite bind_ret]; cbv beta;
    rewrite bind_gets; case_bool_decide; eexists; split; reflexivity.
Qed.

Lemma ok_tail_signals (flag : bool) (self : StateManager) :
  one_signal_at_most (expected_state_change self)
    (signals
       (trace
          ((ok_rest ;; state_may_have_changed ;;
            if flag then stop_expecting_change else ret tt) self))).
Proof.
  destruct (ok_rest_runs self) as (s & Er & <-).
  rewrite (bind_run _ _ _ _ _ _ Er). cbn [final trace result app].
  destruct (state_may_have_changed_cases s)
    as [E | [(cid & src & E & Hnone) | (s' & E & _)]].
  - rewrite (bind_run _ _ _ _ _ _ E). left. destruct flag; reflexivity.
  - rewrite (bind_run _ _ _ _ _ _ E). right.
    exists (current_state (after_change s)), cid, src.
    split; [destruct flag; reflexivity | exact Hnone].
  - rewrite (bind_raised _ _ _ _ _ _ E). left. reflexivity.
Qed.

Lemma ok_signals (self : StateManager) :
  length (signals (trace (ok self))) <= 2 /\
  forall first second,
    signals (trace (ok self)) = [first; second] ->
    exists state, second = (state, None, None).
Proof.
  assert (Hcount : forall expected l,
             one_signal_at_most expected l ->
             length l <= 2 /\
             forall first second, l = [first; second] ->
                                  exists state, second = (state, None, None)).
  { intros expected l [-> | (st & cid & src & -> & _)]; cbn;
      (split; [lia | discriminate]). }
  assert (Hentry : forall (flag : bool) entry,
             let l := signals
                        (trace
                           (((override_state <- gets override_state ;;
                              (if bool_decide (override_state <> None)
                               then modify (set_override_state None) ;;
                                    state_may_have_changed
                               else ret tt) ;;
                              ok_rest) ;;
                             state_may_have_changed ;;
                             if flag then stop_expecting_change else ret tt) entry)) in
             length l <= 2 /\
             forall first second, l = [first; second] ->
                                  exists state, second = (state, None, None)).
  { intros flag entry. cbv zeta.
    rewrite bind_assoc, bind_gets. cbv beta. rewrite bind_assoc.
    case_bool_decide as Ho.
    - rewrite bind_assoc, bind_modify. cbv beta.
      set (s1 := set_override_state None entry).
      destruct (state_may_have_changed_cases s1)
        as [E | [(cid & src & E & _) | (s' & E & _)]].
      + rewrite (bind_run _ _ _ _ _ _ E). cbn [final trace result app].
        apply (Hcount _ _ (ok_tail_signals flag s1)).
      + rewrite (bind_run _ _ _ _ _ _ E). cbn [final trace result app].
        cbn [signals].
        destruct (ok_tail_signals flag (after_change s1))
          as [-> | (st & cid' & src' & -> & Hnone)]; cbn.
        * split; [lia | discriminate].
        * destruct (Hnone eq_refl) as [-> ->].
          split; [lia|]. intros first second [= _ <-]. eauto.
      + rewrite (bind_raised _ _ _ _ _ _ E). cbn. split; [lia | discriminate].
    - rewrite bind_ret. cbv beta.
      apply (Hcount _ _ (ok_tail_signals flag entry)). }
  unfold ok, state_influencer. rewrite bind_gets.
  destruct (expected_state_change self); unfold expect_change;
    [rewrite bind_ret | rewrite bind_modify]; cbv beta.
  - exact (Hentry false self).
  - exact (Hentry true _).
Qed.

(** X7: one call of [ok] sends at most two signals, and the second one, if
    there is one, carries neither a command identifier nor a source: the
    expectation, be it the default of [ok] or one that a caller installed,
    is used up by the signal for the cleared override, and the change that
    the printing or the base slot then makes is reported as unexpected. *)
Theorem ok_second_signal_is_unexpected :
  forall self : StateManager,
    length (signals (trace (ok self))) <= 2 /\
    forall first second,
      signals (trace (ok self)) = [first; second] ->
      exists state, second = (state, None, None).
Proof. exact ok_signals. Qed.

(** *** The sources of the printer's own changes *)

Lemma well_formed_cases base printing_slot override flag last current expected :
  well_formed (mkStateManager base printing_slot override flag last current expected) ->
  (base = READY \/ base = BUSY) /\
  (printing_slot = None \/ printing_slot = Some PRINTING \/
   printing_slot = Some PAUSED \/ printing_slot = Some FINISHED) /\
  (override = None \/ override = Some ATTENTION \/ override = Some ERROR).
Proof.
  intros (Hb & Hp & Ho). cbn in *. split; [exact Hb|]. split.
  - destruct printing_slot as [p|]; [|tauto].
    specialize (Hp p eq_refl). apply PRINTING_STATES_elements in Hp.
    destruct Hp as [-> | [-> | ->]]; tauto.
  - destruct override as [o|]; [|tauto].
    destruct (Ho o eq_refl) as [-> | ->]; tauto.
Qed.

Ltac by_cases_of self :=
  let Hw := fresh "Hw" in
  let Hc := fresh "Hc" in
  destruct self as [base printing_slot override flag last current expected];
  intros Hw; pose proof (well_formed_cases _ _ _ _ _ _ _ Hw) as Hc; clear Hw;
  cbn [expected_state_change current_state override_state printing_state
       base_state];
  destruct Hc as ([-> | ->] & [-> | [-> | [-> | ->]]] & [-> | [-> | ->]]);
  intros -> ->;
  repeat split; intros; try discriminate; try contradiction;
  vm_compute; reflexivity.

Lemma unsolicited_changes :
  forall self : StateManager,
    well_formed self ->
    expected_state_change self = None ->
    current_state self = get_state self ->
    (override_state self = None ->
     (printing_state self = None ->
      signals (trace (printing self)) = [(PRINTING, None, Some "USER")]) /\
     (printing_state self <> None ->
      signals (trace (not_printing self)) = [(base_state self, None, Some "MARLIN")]) /\
     (printing_state self = Some PRINTING ->
      signals (trace (finished self)) = [(FINISHED, None, Some "MARLIN")]) /\
     (printing_state self = None -> base_state self = READY ->
      signals (trace (busy self)) = [(BUSY, None, Some "MARLIN")]) /\
     (printing_state self = Some PRINTING ->
      signals (trace (paused self)) = [(PAUSED, None, Some "USER")]) /\
     (printing_state self = Some PAUSED ->
      signals (trace (resumed self)) = [(PRINTING, None, Some "USER")])) /\
    (override_state self <> Some ATTENTION ->
     signals (trace (attention self)) = [(ATTENTION, None, Some "USER")]) /\
    (override_state self <> Some ERROR ->
     signals (trace (error self)) = [(ERROR, None, Some "WUI")]).
Proof. intros self. by_cases_of self. Qed.

(** X8: the source of each change that the printer makes on its own.  On a
    manager with well-formed slots, the stored state in sync and no
    expectation installed, each method that changes the composed state
    sends exactly one signal, for the new composed state, without command
    identifier and with the source of its default expectation: [USER] for
    a print that starts, pauses or resumes and for [ATTENTION], [MARLIN]
    for a print that ends or finishes and for [BUSY], [WUI] for [ERROR]. *)
Theorem unsolicited_changes_are_attributed :
  forall self : StateManager,
    well_formed self ->
    expected_state_change self = None ->
    current_state self = get_state self ->
    (override_state self = None ->
     (printing_state self = None ->
      signals (trace (printing self)) = [(PRINTING, None, Some "USER")]) /\
     (printing_state self <> None ->
      signals (trace (not_printing self)) = [(base_state self, None, Some "MARLIN")]) /\
     (printing_state self = Some PRINTING ->
      signals (trace (finished self)) = [(FINISHED, None, Some "MARLIN")]) /\
     (printing_state self = None -> base_state self = READY ->
      signals (trace (busy self)) = [(BUSY, None, Some "MARLIN")]) /\
     (printing_state self = Some PRINTING ->
      signals (trace (paused self)) = [(PAUSED, None, Some "USER")]) /\
     (printing_state self = Some PAUSED ->
      signals (trace (resumed self)) = [(PRINTING, None, Some "USER")])) /\
    (override_state self <> Some ATTENTION ->
     signals (trace (attention self)) = [(ATTENTION, None, Some "USER")]) /\
    (override_state self <> Some ERROR ->
     signals (trace (error self)) = [(ERROR, None, Some "WUI")]).
Proof. exact unsolicited_changes. Qed.

(** *** Histories without an unsourced expectation *)

Lemma changes_app events1 events2 :
  changes (events1 ++ events2) = (changes events1 ++ changes events2)%list.
Proof.
  induction events1 as [|[| |sender cid src] events1 IH]; cbn;
    [reflexivity | exact IH | exact IH | rewrite IH; reflexivity].
Qed.

Lemma chain_app l1 : forall first middle l2 last,
  chain first l1 middle -> chain middle l2 last -> chain first (l1 ++ l2) last.
Proof.
  induction l1 as [|[before after] l1 IH]; intros first middle l2 last H1 H2; cbn in *.
  - subst. exact H2.
  - destruct H1 as (-> & Hne & H1). split; [reflexivity|]. split; [exact Hne|].
    exact (IH _ _ _ _ H1 H2).
Qed.

Lemma linked_ret {A} (a : A) : linked (ret a).
Proof.
  intros self H. exists a, self, [].
  split; [reflexivity|]. split; [exact H | reflexivity].
Qed.

Lemma linked_gets {A} (f : StateManager -> A) : linked (gets f).
Proof.
  intros self H. exists (f self), self, [].
  split; [reflexivity|]. split; [exact H | reflexivity].
Qed.

Lemma linked_modify f :
  (forall self, expectation_sourced self -> expectation_sourced (f self)) ->
  (forall self, current_state (f self) = current_state self) ->
  linked (modify f).
Proof.
  intros Hs Hc self H. exists tt, (f self), [].
  split; [reflexivity|]. split; [apply Hs, H|]. cbn. symmetry. apply Hc.
Qed.

Lemma linked_bind {A B} (m : M A) (f : A -> M B) :
  linked m -> (forall a, linked (f a)) -> linked (bind m f).
Proof.
  intros Hm Hf self H.
  destruct (Hm self H) as (a & s1 & t1 & E1 & H1 & C1).
  destruct (Hf a s1 H1) as (b & s2 & t2 & E2 & H2 & C2).
  exists b, s2, (t1 ++ t2)%list. split; [|split; [exact H2|]].
  - unfold bind. rewrite E1, E2. reflexivity.
  - rewrite changes_app. exact (chain_app _ _ _ _ _ C1 C2).
Qed.

Lemma state_may_have_changed_linked : linked state_may_have_changed.
Proof.
  intros self H.
  destruct (decide (get_state self = current_state self)) as [Heq|Hne].
  { rewrite (state_may_have_changed_same self Heq).
    exists tt, self, []. split; [reflexivity|]. split; [exact H | reflexivity]. }
  assert (Hafter : expectation_sourced (after_change self) /\
                   chain (current_state self)
                     [(last_state (after_change self),
                       current_state (after_change self))]
                     (current_state (after_change self))).
  { split; [apply no_expectation_sourced; reflexivity|]. cbn.
    split; [reflexivity|]. split; [|reflexivity].
    intros E. apply Hne. symmetry. exact E. }
  destruct (expected_state_change self) as [change|] eqn:He.
  - rewrite (state_may_have_changed_attributes self change He Hne).
    destruct (classified_expected _ _ _) eqn:Hc.
    + destruct (H change He _ _ Hc) as [source Hs]. rewrite Hs.
      eexists _, _, _. split; [reflexivity | exact Hafter].
    + eexists _, _, _. split; [reflexivity | exact Hafter].
  - rewrite (state_may_have_changed_unexpected self He Hne).
    eexists _, _, _. split; [reflexivity | exact Hafter].
Qed.

Ltac linked_body :=
  repeat first
    [ apply state_may_have_changed_linked
    | apply linked_gets | apply linked_ret
    | apply linked_modify;
      [apply expectation_sourced_slots; intros ?; reflexivity
      | intros ?; reflexivity]
    | apply linked_bind; [|intros ?]
    | match goal with |- linked (if ?b then _ else _) => destruct b end ].

Lemma linked_expect_change change : sourced change -> linked (expect_change change).
Proof.
  intros Hs. apply linked_modify; [|intros ?; reflexivity].
  intros self _. apply expectation_sourced_set. intros c [= <-]. exact Hs.
Qed.

Lemma linked_stop_expecting_change : linked stop_expecting_change.
Proof.
  apply linked_modify; [|intros ?; reflexivity].
  intros self _. apply expectation_sourced_set. discriminate.
Qed.

Lemma state_influencer_linked change (func : M unit) :
  sourced change -> linked func -> linked (state_influencer (Some change) func).
Proof.
  intros Hs Hfunc. unfold state_influencer.
  apply linked_bind; [apply linked_gets|]. intros expected.
  apply linked_bind.
  { destruct expected; [apply linked_ret | apply linked_expect_change, Hs]. }
  intros _. apply linked_bind; [exact Hfunc|]. intros _.
  apply linked_bind; [apply state_may_have_changed_linked|]. intros _.
  destruct expected; [apply linked_ret | apply linked_stop_expecting_change].
Qed.

Lemma mutators_linked m : In m mutators -> linked m.
Proof.
  unfold mutators. cbn.
  intros H; repeat (destruct H as [<- | H]); [..|destruct H];
    (apply state_influencer_linked; [sourced_default | linked_body]).
Qed.

Lemma linked_emit_write message : linked (emit (SerialWrite message)).
Proof.
  intros self H. exists tt, self, [SerialWrite message].
  split; [reflexivity|]. split; [exact H | reflexivity].
Qed.

Lemma linked_try {A B} (body : M A) caught (handler : M B) orelse :
  linked_or_raises caught body -> linked handler -> (forall a, linked (orelse a)) ->
  linked (try_except_else body caught handler orelse).
Proof.
  intros Hb Hh Ho self H.
  destruct (Hb self H) as (r & s1 & t1 & E1 & Hr & H1 & C1).
  unfold try_except_else. rewrite E1.
  destruct Hr as [-> | [a ->]].
  - rewrite decide_True by reflexivity.
    destruct (Hh s1 H1) as (b & s2 & t2 & E2 & H2 & C2). rewrite E2.
    exists b, s2, (t1 ++ t2)%list. split; [reflexivity|]. split; [exact H2|].
    rewrite changes_app. exact (chain_app _ _ _ _ _ C1 C2).
  - destruct (Ho a s1 H1) as (b & s2 & t2 & E2 & H2 & C2). rewrite E2.
    exists b, s2, (t1 ++ t2)%list. split; [reflexivity|]. split; [exact H2|].
    rewrite changes_app. exact (chain_app _ _ _ _ _ C1 C2).
Qed.

Lemma insert_progress_linked reply :
  linked_or_raises TimeoutError (insert_progress reply).
Proof.
  intros self H. unfold insert_progress.
  destruct reply as [progress|]; eexists _, self, [InsertProgress];
    (split; [reflexivity|]); (split; [eauto|]); (split; [exact H | reflexivity]).
Qed.

Lemma serial_write_match_linked message pattern lines :
  linked_or_raises TimeoutError (serial_write_match message pattern lines).
Proof.
  intros self H. unfold serial_write_match.
  destruct (first_match pattern lines) as [m|] eqn:Hm;
    eexists _, self, [SerialWrite message];
    (split; [unfold bind, emit; rewrite ?Hm; reflexivity|]);
    (split; [eauto|]); (split; [exact H | reflexivity]).
Qed.

Lemma update_state_linked progress_reply lines :
  linked (update_state progress_reply lines).
Proof.
  assert (Hm := mutators_linked).
  unfold mutators in Hm. cbn in Hm.
  unfold update_state, serial_write.
  apply linked_bind; [apply linked_gets|]. intros [|]; [apply linked_emit_write|].
  apply linked_bind; [apply linked_gets|]. intros printing_first.
  apply linked_bind.
  - case_bool_decide; [|apply linked_ret].
    apply linked_try; [apply insert_progress_linked | apply linked_ret |].
    intros progress. destruct (progress =? 100)%Z; [|apply linked_ret].
    apply linked_bind; [apply linked_expect_change; sourced_default|].
    intros _. apply Hm. tauto.
  - intros _.
    apply linked_try; [apply serial_write_match_linked | apply linked_ret |].
    intros m. apply linked_bind; [apply linked_gets|]. intros printing_then.
    destruct (_ && _); apply Hm; tauto.
Qed.

Lemma dispatch_linked handlers line :
  Forall (fun h => linked (snd h)) handlers -> linked (dispatch handlers line).
Proof.
  induction 1 as [|[pattern handler] handlers Hh _ IH]; cbn.
  - apply linked_ret.
  - apply linked_bind; [|intros _; exact IH].
    destruct (matches pattern line); [exact Hh | apply linked_ret].
Qed.

Lemma step_linked i : input_sourced i -> linked (step i).
Proof.
  destruct i; cbn [step input_sourced]; intros Hi.
  - unfold receive_line. apply dispatch_linked. unfold output_handlers.
    repeat (apply List.Forall_cons;
            [cbn; apply mutators_linked; unfold mutators; cbn; tauto|]).
    apply List.Forall_nil.
  - apply update_state_linked.
  - apply linked_expect_change, Hi.
  - apply linked_stop_expecting_change.
  - apply linked_modify; [|intros ?; reflexivity].
    apply expectation_sourced_slots. intros ?; reflexivity.
Qed.

Lemma run_inputs_linked inputs : forall self,
  expectation_sourced self ->
  Forall input_sourced inputs ->
  Forall (fun r => r = Returned tt) (run_results inputs self) /\
  chain (current_state self) (changes (snd (run_inputs inputs self)))
    (current_state (fst (run_inputs inputs self))).
Proof.
  induction inputs as [|i inputs IH]; intros self H Hall; cbn.
  - split; [constructor | reflexivity].
  - apply Forall_cons in Hall. destruct Hall as [Hi Hall].
    destruct (step_linked i Hi self H) as ([] & s1 & t1 & E1 & H1 & C1).
    rewrite E1. cbn [final trace result].
    destruct (IH s1 H1 Hall) as [Hr Hc].
    destruct (run_inputs inputs s1) as [self' events]; cbn in *.
    split; [constructor; [reflexivity | exact Hr]|].
    rewrite changes_app. exact (chain_app _ _ _ _ _ C1 Hc).
Qed.

(** X9: no call raises, and no change is reported twice or skipped, as
    long as no expectation without a source is installed.  In a history in
    which the expectation of the manager at the start, and every one that
    is installed on the way, is sourced, every call returns, and the
    signals form a chain that leads from the stored state at the start to
    the stored state at the end: each signal reports a change from the
    state that the signal before reported, to a different state. *)
Theorem sourced_histories_never_raise :
  forall inputs (self : StateManager),
    (forall change, expected_state_change self = Some change -> sourced change) ->
    Forall input_sourced inputs ->
    Forall (fun r => r = Returned tt) (run_results inputs self) /\
    chain (current_state self) (changes (snd (run_inputs inputs self)))
      (current_state (fst (run_inputs inputs self))).
Proof. intros inputs self. exact (run_inputs_linked inputs self). Qed.

(** *** A poll that gets no answer *)

(** X10: the poller swallows the timeouts of the printer.  A poll that is
    not skipped, whose [M27] gets no matching reply in time and whose
    progress query, if the print is [PRINTING], times out or tells
    anything but 100, returns, leaves the manager as it is and only
    performs its queries. *)
Theorem unanswered_poll_changes_nothing :
  forall (self : StateManager) progress_reply lines,
    is_busy self = false ->
    first_match SD_PRINTING_REGEX lines = None ->
    progress_reply <> Some 100%Z ->
    update_state progress_reply lines self =
    mkRun self
      (if decide (printing_state self = Some PRINTING)
       then [InsertProgress; SerialWrite "M27"] else [SerialWrite "M27"])
      (Returned tt).
Proof.
  intros self progress_reply lines Hb Hm Hp.
  assert (Hpoll : try_except_else (serial_write_match "M27" SD_PRINTING_REGEX lines)
                    TimeoutError (ret tt)
                    (fun m =>
                       printing_then <- gets printing_state ;;
                       if bool_decide (is_Some (fst (groups m)))
                          && bool_decide (printing_then <> Some PAUSED)
                       then not_printing else printing) self
                  = mkRun self [SerialWrite "M27"] (Returned tt)).
  { unfold try_except_else, serial_write_match, bind, emit. rewrite Hm.
    reflexivity. }
  unfold update_state. rewrite bind_gets, Hb, bind_gets.
  case_bool_decide as Hprinting.
  - rewrite decide_True by exact Hprinting.
    assert (Hprogress :
              try_except_else (insert_progress progress_reply) TimeoutError (ret tt)
                (fun progress =>
                   if (progress =? 100)%Z then
                     expect_change (expectation [(FINISHED, Some MARLIN)] [] None) ;;
                     finished
                   else ret tt) self
              = mkRun self [InsertProgress] (Returned tt)).
    { unfold try_except_else, insert_progress, bind, emit.
      destruct progress_reply as [progress|]; cbn; [|reflexivity].
      destruct (Z.eqb_spec progress 100) as [->|_]; [contradiction | reflexivity]. }
    unfold bind at 1. rewrite Hprogress, Hpoll. reflexivity.
  - rewrite decide_False by exact Hprinting.
    rewrite bind_ret. exact Hpoll.
Qed.

(** *** A poll that gets an answer *)

Lemma update_state_answered (self : StateManager) progress_reply lines m :
  is_busy self = false ->
  progress_reply <> Some 100%Z ->
  first_match SD_PRINTING_REGEX lines = Some m ->
  let handler :=
    if bool_decide (is_Some (fst (groups m)))
       && bool_decide (printing_state self <> Some PAUSED)
    then not_printing else printing in
  signals (trace (update_state progress_reply lines self)) =
  signals (trace (handler self)).
Proof.
  intros Hb Hp Hm handler.
  assert (Hpoll : try_except_else (serial_write_match "M27" SD_PRINTING_REGEX lines)
                    TimeoutError (ret tt)
                    (fun m =>
                       printing_then <- gets printing_state ;;
                       if bool_decide (is_Some (fst (groups m)))
                          && bool_decide (printing_then <> Some PAUSED)
                       then not_printing else printing) self
                  = mkRun (final (handler self))
                      (SerialWrite "M27" :: trace (handler self))
                      (result (handler self))).
  { unfold try_except_else, serial_write_match, bind at 1, emit. rewrite Hm.
    cbn [ret app]. rewrite bind_gets. fold handler.
    destruct (handler self); reflexivity. }
  unfold update_state. rewrite bind_gets, Hb, bind_gets.
  case_bool_decide as Hprinting.
  - assert (Hprogress :
              try_except_else (insert_progress progress_reply) TimeoutError (ret tt)
                (fun progress =>
                   if (progress =? 100)%Z then
                     expect_change (expectation [(FINISHED, Some MARLIN)] [] None) ;;
                     finished
                   else ret tt) self
              = mkRun self [InsertProgress] (Returned tt)).
    { unfold try_except_else, insert_progress, bind, emit.
      destruct progress_reply as [progress|]; cbn; [|reflexivity].
      destruct (Z.eqb_spec progress 100) as [->|_]; [contradiction | reflexivity]. }
    unfold bind at 1. rewrite Hprogress, Hpoll. reflexivity.
  - rewrite bind_ret, Hpoll. reflexivity.
Qed.

(** X11: what a poll makes of the printer's answer to [M27].  On a manager
    with well-formed slots, in sync, with no expectation and no override,
    that is not busy, and with a progress other than 100: when the reply
    matches the first group and a print is [PRINTING] or [FINISHED], the
    poll signals [READY] with the source [MARLIN]; when it matches the
    second group and no print is known, the poll signals [PRINTING] with
    the source [USER]. *)
Theorem answered_poll_follows_the_printer :
  forall (self : StateManager) progress_reply lines m,
    well_formed self ->
    expected_state_change self = None ->
    current_state self = get_state self ->
    override_state self = None ->
    is_busy self = false ->
    progress_reply <> Some 100%Z ->
    first_match SD_PRINTING_REGEX lines = Some m ->
    (is_Some (fst (groups m)) ->
     printing_state self = Some PRINTING \/ printing_state self = Some FINISHED ->
     signals (trace (update_state progress_reply lines self)) =
       [(READY, None, Some "MARLIN")]) /\
    (fst (groups m) = None ->
     printing_state self = None ->
     signals (trace (update_state progress_reply lines self)) =
       [(PRINTING, None, Some "USER")]).
Proof.
  intros self progress_reply lines m Hw He Hs Ho Hb Hp Hm.
  rewrite (update_state_answered self progress_reply lines m Hb Hp Hm).
  destruct (unsolicited_changes self Hw He Hs) as [Hall _].
  destruct (Hall Ho) as (Hprinting & Hnot & _).
  assert (Hbase : base_state self = READY).
  { destruct Hw as ([Hr | Hbusy] & _); [exact Hr|].
    unfold is_busy in Hb. cbn in Hbusy. rewrite Hbusy in Hb.
    rewrite bool_decide_true in Hb by reflexivity.
    rewrite orb_true_r in Hb. discriminate. }
  split.
  - intros Hg Hstate.
    rewrite bool_decide_true by exact Hg.
    rewrite bool_decide_true by (destruct Hstate as [-> | ->]; discriminate).
    cbn [andb]. rewrite Hnot, Hbase; [reflexivity|].
    destruct Hstate as [-> | ->]; discriminate.
  - intros Hg Hstate.
    rewrite bool_decide_false by (rewrite Hg; intros [x Hx]; discriminate).
    cbn [andb]. apply Hprinting, Hstate.
Qed.

(** *** One line, one handler *)

Lemma append_empty w : w +:+ "" = w.
Proof.
  induction w as [|a w IH]; [reflexivity|].
  change (String a w +:+ "") with (String a (w +:+ "")). rewrite IH. reflexivity.
Qed.

Lemma append_inv w a b : w +:+ a = w +:+ b -> a = b.
Proof.
  intros H. apply (f_equal (strip_prefix w)) in H.
  rewrite !strip_prefix_append in H. congruence.
Qed.

(** The lines that an anchored literal pattern [^w$] matches: the literal,
    with or without a final newline. *)
Lemma matches_exact w line :
  matches (Seq Bol (Seq (Lit w) Eol)) line = true <->
  line = w \/ line = w +:+ String newline "".
Proof.
  unfold matches, re_match. cbn [exec].
  destruct (strip_prefix w line) as [rest|] eqn:E.
  - apply strip_prefix_Some in E. subst line.
    assert (Hrest : w +:+ rest = w \/ w +:+ rest = w +:+ String newline "" <->
                    rest = "" \/ rest = String newline "").
    { split; intros [H | H].
      - left. rewrite <- (append_empty w) in H at 2. exact (append_inv _ _ _ H).
      - right. exact (append_inv _ _ _ H).
      - left. subst. apply append_empty.
      - right. subst. reflexivity. }
    rewrite Hrest.
    destruct rest as [|c [|c' rest]]; cbn [at_end].
    + split; [tauto | reflexivity].
    + unfold is_newline. destruct (Ascii.eqb_spec c newline) as [->|Hc].
      * split; [tauto | reflexivity].
      * split; [discriminate|]. intros [H | H]; [discriminate | congruence].
    + split; [discriminate|]. intros [H | H]; discriminate.
  - split; [discriminate|]. intros [-> | ->].
    + rewrite <- (append_empty w) in E at 2. rewrite strip_prefix_append in E.
      discriminate.
    + rewrite strip_prefix_append in E. discriminate.
Qed.

Ltac only_handler :=
  unfold receive_line, output_handlers;
  repeat (rewrite dispatch_skip by reflexivity);
  apply dispatch_last_match; [reflexivity | no_other_match].

Lemma receive_line_runs_its_handler pattern handler line (self : StateManager) :
  In (pattern, handler) output_handlers ->
  matches pattern line = true ->
  receive_line line self = handler self.
Proof.
  unfold output_handlers at 1. cbn [In].
  intros H Hm;
    repeat (destruct H as [H | H];
            [apply pair_equal_spec in H; destruct H as [<- <-]|]);
    [..|destruct H];
    try (apply matches_exact in Hm; destruct Hm as [-> | ->]; only_handler).
  apply receive_error, Hm.
Qed.

Lemma receive_line_ignores line (self : StateManager) :
  (forall pattern handler, In (pattern, handler) output_handlers ->
                           matches pattern line = false) ->
  receive_line line self = mkRun self [] (Returned tt).
Proof.
  intros H. unfold receive_line. apply dispatch_no_match.
  apply Forall_forall. intros [pattern handler] Hin. cbn.
  apply (H pattern handler). apply list_elem_of_In. exact Hin.
Qed.

(** X12: a line runs at most one handler.  A line that matches the pattern
    of a registered handler runs that handler and nothing else, for each of
    the nine handlers; a line that matches none of the patterns leaves the
    manager as it is and performs nothing. *)
Theorem each_line_runs_one_handler :
  (forall pattern handler line (self : StateManager),
      In (pattern, handler) output_handlers ->
      matches pattern line = true ->
      receive_line line self = handler self) /\
  (forall line (self : StateManager),
      (forall pattern handler, In (pattern, handler) output_handlers ->
                               matches pattern line = false) ->
      receive_line line self = mkRun self [] (Returned tt)).
Proof.
  split; [exact receive_line_runs_its_handler | exact receive_line_ignores].
Qed.

(** X13: the lines that run each handler.  The eight patterns that are a
    literal between [^] and [$] match the literal itself and the literal
    followed by one newline, and nothing else: trailing text such as a
    temperature report after [ok] does not run the handler. *)
Theorem anchored_patterns_match_exactly :
  forall line,
    (matches OK_REGEX line = true <->
     line = "ok" \/ line = "ok" +:+ String newline "") /\
    (matches BUSY_REGEX line = true <->
     line = "echo:busy: processing" \/
     line = "echo:busy: processing" +:+ String newline "") /\
    (matches ATTENTION_REGEX line = true <->
     line = "echo:busy: paused for user" \/
     line = "echo:busy: paused for user" +:+ String newline "") /\
    (matches PAUSED_REGEX line = true <->
     line = "// action:paused" \/ line = "// action:paused" +:+ String newline "") /\
    (matches RESUMED_REGEX line = true <->
     line = "// action:resumed" \/ line = "// action:resumed" +:+ String newline "") /\
    (matches CANCEL_REGEX line = true <->
     line = "// action:cancel" \/ line = "// action:cancel" +:+ String newline "") /\
    (matches START_PRINT_REGEX line = true <->
     line = START_PRINT_LINE \/ line = START_PRINT_LINE +:+ String newline "") /\
    (matches PRINT_DONE_REGEX line = true <->
     line = "Done printing file" \/
     line = "Done printing file" +:+ String newline "").
Proof. intros line. repeat split; apply matches_exact. Qed.

(** *** The groups of the printing pattern *)

Lemma exec_capture_free {R} r : capture_free r = true ->
  forall b s c (k : bool -> string -> captures -> option R) m,
    exec r b s c k = Some m -> exists b' s', k b' s' c = Some m.
Proof.
  induction r as [| |w| | |r IH|r1 IH1 r2 IH2|r1 IH1 r2 IH2|i r IH];
    cbn [capture_free]; intros Hfree b s c k m; cbn [exec].
  - destruct b; [eauto | discriminate].
  - destruct (at_end s); [eauto | discriminate].
  - destruct (strip_prefix w s); [eauto | discriminate].
  - destruct s as [|a s]; [discriminate|]. destruct (is_newline a); [discriminate | eauto].
  - destruct s as [|a s]; [discriminate|]. destruct (is_digit a); [eauto | discriminate].
  - generalize (S (String.length s)). intros fuel. revert b s c.
    induction fuel as [|fuel IHfuel]; intros b s c; cbn [star_loop]; [eauto|].
    destruct (exec r b s c _) as [m'|] eqn:E; [|eauto].
    intros [= <-]. apply (IH Hfree) in E. destruct E as (b' & s' & E).
    destruct (_ <? _)%nat; [|discriminate]. exact (IHfuel _ _ _ E).
  - apply andb_prop in Hfree. destruct Hfree as [H1 H2].
    intros E. apply (IH1 H1) in E. destruct E as (b' & s' & E).
    exact (IH2 H2 _ _ _ _ _ E).
  - apply andb_prop in Hfree. destruct Hfree as [H1 H2].
    destruct (exec r1 b s c k) as [m'|] eqn:E.
    + intros [= <-]. exact (IH1 H1 _ _ _ _ _ E).
    + exact (IH2 H2 _ _ _ _ _).
  - discriminate.
Qed.

Lemma length_append w s :
  String.length (w +:+ s) = String.length w + String.length s.
Proof.
  induction w as [|a w IH]; [reflexivity|].
  change (String a w +:+ s) with (String a (w +:+ s)). cbn. rewrite IH. reflexivity.
Qed.

Lemma take_append w s : take (String.length w) (w +:+ s) = w.
Proof.
  induction w as [|a w IH]; [destruct s; reflexivity|].
  change (String a w +:+ s) with (String a (w +:+ s)). cbn. rewrite IH. reflexivity.
Qed.

Lemma consumed_append w s : consumed (w +:+ s) s = w.
Proof.
  unfold consumed. rewrite length_append.
  replace (String.length w + String.length s - String.length s)
    with (String.length w) by lia.
  apply take_append.
Qed.

Lemma re_match_SD_PRINTING_REGEX line m :
  re_match SD_PRINTING_REGEX line = Some m ->
  m = [(1, "Not SD printing")] \/ exists w, m = [(2, w)].
Proof.
  unfold re_match, SD_PRINTING_REGEX. cbn [exec].
  destruct (strip_prefix "Not SD printing" line) as [rest|] eqn:E1.
  - apply strip_prefix_Some in E1. subst line.
    rewrite consumed_append.
    destruct (at_end rest); [intros [= <-]; left; reflexivity|].
    intros E. right.
    apply (exec_capture_free (Seq (Plus Digit) (Seq (Lit ":") (Plus Digit)))
             eq_refl) in E.
    destruct E as (b' & s' & E). cbn [exec] in E.
    destruct (at_end s'); [|discriminate]. injection E as <-. eauto.
  - intros E. right.
    apply (exec_capture_free (Seq (Plus Digit) (Seq (Lit ":") (Plus Digit)))
             eq_refl) in E.
    destruct E as (b' & s' & E). cbn [exec] in E.
    destruct (at_end s'); [|discriminate]. injection E as <-. eauto.
Qed.

Lemma first_match_Some pattern lines m :
  first_match pattern lines = Some m ->
  exists line, In line lines /\ re_match pattern line = Some m.
Proof.
  induction lines as [|line lines IH]; cbn; [discriminate|].
  destruct (re_match pattern line) as [m'|] eqn:E.
  - intros [= <-]. eauto.
  - intros H. destruct (IH H) as (l & Hin & Hl). eauto.
Qed.

(** X14: a reply to [M27] fills exactly one of the two groups.  The match
    that the poller gets from [Serial.write] of [M27] comes from one of the
    lines received, and either its first group is [Not SD printing] and
    the second is missing, or the first is missing and the second is
    there: [groups[0] is not None] tells the two replies apart. *)
Theorem sd_reply_fills_one_group :
  forall lines m,
    first_match SD_PRINTING_REGEX lines = Some m ->
    (exists line, In line lines /\ re_match SD_PRINTING_REGEX line = Some m) /\
    ((fst (groups m) = Some "Not SD printing" /\ snd (groups m) = None) \/
     (fst (groups m) = None /\ is_Some (snd (groups m)))).
Proof.
  intros lines m H.
  destruct (first_match_Some _ _ _ H) as (line & Hin & Hline).
  split; [eauto|].
  destruct (re_match_SD_PRINTING_REGEX line m Hline) as [-> | [w ->]].
  - left. split; reflexivity.
  - right. split; [reflexivity | cbn; eauto].
Qed.

(** *** The client of the remote service *)


(** *** The configuration *)


(** *** The helpers of the serial queue *)

Lemma fold_left_snoc {A B} (f : A -> B) l : forall acc,
  fold_left (fun acc x => (acc ++ [f x])%list) l acc = (acc ++ map f l)%list.
Proof.
  induction l as [|x l IH]; intros acc; cbn.
  - rewrite app_nil_r. reflexivity.
  - rewrite IH, <- app_assoc. reflexivity.
Qed.

(** X17: a batch is the same as its instructions one by one.
    [enqueue_list_from_str] returns one matchable instruction for each
    message, in the order of the messages, each with the pattern and the
    checksum flag given; behind the waiting instructions, it leaves the
    queue as [enqueue_matchable] does message by message, and in front of
    them, as [enqueue_matchable] to the front does in the reverse order of
    the messages. *)
Theorem batch_is_one_by_one :
  forall queue message_list regexp to_checksum,
    (forall front,
        snd (enqueue_list_from_str queue message_list regexp front to_checksum) =
        map (fun message => MatchableInstruction message regexp to_checksum)
          message_list) /\
    fst (enqueue_list_from_str queue message_list regexp false to_checksum) =
      fold_left
        (fun queue message =>
           fst (enqueue_matchable queue message regexp false to_checksum))
        message_list queue /\
    fst (enqueue_list_from_str queue message_list regexp true to_checksum) =
      fold_left
        (fun queue message =>
           fst (enqueue_matchable queue message regexp true to_checksum))
        (rev message_list) queue.
Proof.
  intros queue message_list regexp to_checksum.
  unfold enqueue_list_from_str, enqueue_list, enqueue_matchable, enqueue_one.
  cbn [fst snd].
  rewrite (fold_left_snoc
             (fun message => MatchableInstruction message regexp to_checksum)).
  cbn [app]. split; [reflexivity|]. split.
  - revert queue. induction message_list as [|message l IH]; intros queue; cbn.
    + apply app_nil_r.
    + rewrite <- IH, <- app_assoc. reflexivity.
  - revert queue. induction message_list as [|message l IH]; intros queue;
      cbn [map rev app].
    + reflexivity.
    + rewrite fold_left_app. cbn [fold_left]. rewrite <- IH. reflexivity.
Qed.

Lemma wait_for_instruction_stops should_wait confirmed n :
  forall steps turn fuel,
    n = turn + steps ->
    (forall i, turn <= i < n -> should_wait i = true /\ confirmed i = false) ->
    should_wait n = false \/ confirmed n = true ->
    steps < fuel ->
    wait_for_instruction should_wait confirmed fuel turn =
    Some (if should_wait n then S n else n).
Proof.
  induction steps as [|steps IH]; intros turn fuel Hn Hbefore Hstop Hfuel.
  - replace turn with n by lia.
    destruct fuel as [|fuel]; [lia|]. cbn.
    destruct (should_wait n); [|reflexivity].
    destruct Hstop as [H | ->]; [discriminate | reflexivity].
  - destruct fuel as [|fuel]; [lia|]. cbn.
    destruct (Hbefore turn) as [-> ->]; [lia|].
    apply IH; [lia | | exact Hstop | lia].
    intros i Hi. apply Hbefore. lia.
Qed.

Lemma wait_for_instruction_goes_on should_wait confirmed :
  (forall i, should_wait i = true /\ confirmed i = false) ->
  forall fuel turn, wait_for_instruction should_wait confirmed fuel turn = None.
Proof.
  intros H. induction fuel as [|fuel IH]; intros turn; cbn; [reflexivity|].
  destruct (H turn) as [-> ->]. apply IH.
Qed.

(** X18: [wait_for_instruction] waits until the first confirmation or the
    first refusal to wait.  When turn [n] is the first in which
    [should_wait()] is false or the wait is confirmed, the loop ends after
    [n] waits in the first case and [n + 1] in the second, whatever fuel
    above [n] it is given; when every turn wants to wait and none is
    confirmed, it ends with no fuel. *)
Theorem wait_for_instruction_ends_at_first_stop :
  forall should_wait confirmed,
    (forall n fuel,
        (forall i, i < n -> should_wait i = true /\ confirmed i = false) ->
        should_wait n = false \/ confirmed n = true ->
        n < fuel ->
        wait_for_instruction should_wait confirmed fuel 0 =
        Some (if should_wait n then S n else n)) /\
    ((forall i, should_wait i = true /\ confirmed i = false) ->
     forall fuel, wait_for_instruction should_wait confirmed fuel 0 = None).
Proof.
  intros should_wait confirmed. split.
  - intros n fuel Hbefore Hstop Hfuel.
    apply (wait_for_instruction_stops should_wait confirmed n n 0 fuel);
      [lia | | exact Hstop | exact Hfuel].
    intros i Hi. apply Hbefore. lia.
  - intros H fuel. apply wait_for_instruction_goes_on, H.
Qed.

(** *** The expectation of a command *)

Section Command.

Variable change : StateChange.
Variable response : Response.
Variable source : Sources.
Hypothesis change_response : api_response change = Some response.
Hypothesis change_default : default_source change = Some source.
Hypothesis change_to : to_states change = ∅.
Hypothesis change_from : from_states change = ∅.

Let x : option Z * option string :=
  (Some (get_command_id response), Some (Sources_name source)).

Lemma command_change_sourced : sourced change.
Proof.
  intros last curr _. unfold attributed_source, defined_source.
  rewrite change_to, change_from, !lookup_empty, change_default. eauto.
Qed.

Lemma first_signal_ret {A} (a : A) : first_signal_from change x (ret a).
Proof. intros self H. exists a, self, []. split; [reflexivity|]. left. auto. Qed.

Lemma first_signal_gets {A} (f : StateManager -> A) :
  first_signal_from change x (gets f).
Proof. intros self H. exists (f self), self, []. split; [reflexivity|]. left. auto. Qed.

Lemma first_signal_modify f :
  (forall self, expected_state_change (f self) = expected_state_change self) ->
  first_signal_from change x (modify f).
Proof.
  intros Hf self H. exists tt, (f self), []. split; [reflexivity|]. left.
  split; [reflexivity|]. rewrite Hf. exact H.
Qed.

Lemma first_signal_bind {A B} (m : M A) (f : A -> M B) :
  first_signal_from change x m ->
  (forall a, first_signal_from change x (f a)) ->
  (forall a, returns_if_sourced (f a)) ->
  returns_if_sourced m ->
  first_signal_from change x (bind m f).
Proof.
  intros Hm Hf Hr Hrm self H.
  assert (Hs : expectation_sourced self).
  { intros c Hc. rewrite H in Hc. injection Hc as <-. apply command_change_sourced. }
  destruct (Hm self H) as (a & s1 & t1 & E1 & Hcase).
  destruct (Hrm self Hs) as (a' & s1' & t1' & E1' & Hs1).
  rewrite E1 in E1'. injection E1' as <- <- <-.
  destruct Hcase as [[Hnone He1] | (st & rest & Hsig)].
  - destruct (Hf a s1 He1) as (b & s2 & t2 & E2 & Hcase2).
    exists b, s2, (t1 ++ t2)%list. split.
    + unfold bind. rewrite E1, E2. reflexivity.
    + rewrite signals_app, Hnone. exact Hcase2.
  - destruct (Hr a s1 Hs1) as (b & s2 & t2 & E2 & _).
    exists b, s2, (t1 ++ t2)%list. split.
    + unfold bind. rewrite E1, E2. reflexivity.
    + right. rewrite signals_app, Hsig. cbn. eauto.
Qed.

Lemma state_may_have_changed_first_signal :
  first_signal_from change x state_may_have_changed.
Proof.
  intros self H.
  destruct (decide (get_state self = current_state self)) as [Heq|Hne].
  { rewrite (state_may_have_changed_same self Heq).
    exists tt, self, []. split; [reflexivity|]. left. auto. }
  rewrite (state_may_have_changed_attributes self change H Hne).
  assert (Hc : classified_expected change (current_state self) (get_state self) = true).
  { unfold classified_expected. rewrite change_default. cbn. apply orb_true_r. }
  assert (Ha : attributed_source change (current_state self) (get_state self)
               = Some source).
  { unfold attributed_source, defined_source.
    rewrite change_to, change_from, !lookup_empty. exact change_default. }
  rewrite Hc, Ha, change_response.
  eexists _, _, _. split; [reflexivity|]. right. cbn. eauto.
Qed.

Ltac first_signal_body :=
  repeat first
    [ apply state_may_have_changed_first_signal
    | apply first_signal_gets | apply first_signal_ret
    | apply first_signal_modify; intros ?; reflexivity
    | apply first_signal_bind; [|intros ?|intros ?; returns_body|returns_body]
    | match goal with |- first_signal_from _ _ (if ?b then _ else _) => destruct b end ].

Lemma state_influencer_first_signal default (func : M unit) :
  sourced default ->
  first_signal_from change x func -> returns_if_sourced func ->
  first_signal_from change x (state_influencer (Some default) func).
Proof.
  intros Hd Hfunc Hr self H. unfold state_influencer. rewrite bind_gets, H.
  revert self H.
  change (first_signal_from change x
            (ret tt ;; func ;; state_may_have_changed ;; ret tt)).
  apply first_signal_bind; [apply first_signal_ret | | |apply returns_ret].
  - intros _. apply first_signal_bind;
      [exact Hfunc | | |exact Hr].
    + intros _. apply first_signal_bind;
        [apply state_may_have_changed_first_signal | | |
         apply state_may_have_changed_returns].
      * intros _. apply first_signal_ret.
      * intros _. apply returns_ret.
    + intros _. apply returns_bind; [apply state_may_have_changed_returns|].
      intros _. apply returns_ret.
  - intros _. apply returns_bind; [exact Hr|]. intros _.
    apply returns_bind; [apply state_may_have_changed_returns|].
    intros _. apply returns_ret.
Qed.

Lemma mutators_first_signal m : In m mutators -> first_signal_from change x m.
Proof.
  unfold mutators. cbn.
  intros H; repeat (destruct H as [<- | H]); [..|destruct H];
    (apply state_influencer_first_signal;
     [sourced_default | first_signal_body | returns_body]).
Qed.

End Command.

(** X19: the expectation of a command claims the next change, whatever it
    is.  With an expectation installed that carries a response and a
    default source and names no states, as a command handler installs it,
    each of the nine state changing methods returns; if it sends a signal,
    the first one carries the command identifier of the response and the
    name of the default source, also for a change that the command did not
    ask for; if it sends none, the expectation stays installed. *)
Theorem command_expectation_claims_next_change :
  forall m (self : StateManager) change response source,
    In m mutators ->
    expected_state_change self = Some change ->
    api_response change = Some response ->
    default_source change = Some source ->
    to_states change = ∅ ->
    from_states change = ∅ ->
    exists self' events,
      m self = mkRun self' events (Returned tt) /\
      (signals events = [] /\ expected_state_change self' = Some change \/
       exists state rest,
         signals events =
         (state, Some (get_command_id response), Some (Sources_name source)) :: rest).
Proof.
  intros m self change response source Hin He Hr Hd Hto Hfrom.
  destruct (mutators_first_signal change response source Hr Hd Hto Hfrom m Hin self He)
    as ([] & self' & events & E & Hcase).
  exists self', events. split; [exact E | exact Hcase].
Qed.

(** *** A print that the poller finds finished *)

(** X20: the poller's own expectation replaces whatever is installed.  On
    a manager in sync that is not busy, with the printing slot [PRINTING]
    and no override, a poll that is told a progress of 100 first signals
    [FINISHED] with the source [MARLIN] and no command identifier,
    whatever expectation was installed before the poll: that of a command
    is lost. *)
Theorem polled_finish_discards_expectation :
  forall (self : StateManager) lines,
    is_busy self = false ->
    printing_state self = Some PRINTING ->
    override_state self = None ->
    current_state self = get_state self ->
    exists rest,
      signals (trace (update_state (Some 100%Z) lines self)) =
      (FINISHED, None, Some "MARLIN") :: rest.
Proof.
  intros self lines Hb Hp Ho Hs.
  unfold update_state. rewrite bind_gets, Hb, bind_gets, Hp.
  rewrite bool_decide_true by reflexivity.
  set (installed := expectation [(FINISHED, Some MARLIN)] [] None).
  set (self' := after_change
                  (set_printing_state (Some FINISHED)
                     (set_expected_state_change (Some installed) self))).
  assert (Hfirst :
            try_except_else (insert_progress (Some 100%Z)) TimeoutError (ret tt)
              (fun progress =>
                 if (progress =? 100)%Z then expect_change installed ;; finished
                 else ret tt) self
            = mkRun self'
                [InsertProgress; StateChangedSignal self' None (Some "MARLIN")]
                (Returned tt)).
  { destruct self as [base printing_slot override flag last current expected].
    cbn in Hp, Ho. subst printing_slot override. cbn in Hs. subst current.
    clear Hb. vm_compute. reflexivity. }
  unfold bind at 1. rewrite Hfirst.
  match goal with |- context [try_except_else ?b ?c ?h ?o self'] =>
    destruct (try_except_else b c h o self') as [s2 t2 r2]
  end.
  cbn. exists (signals t2). f_equal. f_equal. f_equal.
  unfold get_state. cbn. rewrite Ho. reflexivity.
Qed.

Lemma well_formed_of_cases (self : StateManager) :
  (base_state self = READY \/ base_state self = BUSY) ->
  (printing_state self = None \/ printing_state self = Some PRINTING \/
   printing_state self = Some PAUSED \/ printing_state self = Some FINISHED) ->
  (override_state self = None \/ override_state self = Some ATTENTION \/
   override_state self = Some ERROR) ->
  well_formed self.
Proof.
  intros Hb Hp Ho. unfold well_formed, slots_well_formed, slots.
  split; [exact Hb|]. split.
  - intros p E. rewrite E in Hp. apply PRINTING_STATES_elements.
    destruct Hp as [H | [H | [H | H]]]; [discriminate | | |];
      injection H as ->; tauto.
  - intros o E. rewrite E in Ho.
    destruct Ho as [H | [H | H]]; [discriminate | |]; injection H as ->; tauto.
Qed.

End Manager.

Arguments mkRun {Response A} _ _ _.
Arguments final {Response A} _.
Arguments trace {Response A} _.
Arguments result {Response A} _.
Arguments ApiReturned {A} a.
Arguments RaisedRequestException {A}.

(** * The properties at work

    Each property that has premises, applied to a manager of the scenarios;
    a response of the remote service is represented by the command
    identifier that it carries. *)

Lemma get_state_is_composed_state_witness :
  get_state (@new_manager Z) = get_state (set_internal_busy true (@new_manager Z)).
Proof.
  apply (proj1 (proj2 (get_state_is_composed_state (fun id : Z => id))));
    reflexivity.
Defined.

Lemma attribution_follows_specification_witness :
  expected_source (resuming_manager 7%Z) = Some CONNECT /\
  state_may_have_changed (fun id : Z => id) (resuming_manager 7%Z) =
    mkRun (after_change (resuming_manager 7%Z))
      [StateChangedSignal (after_change (resuming_manager 7%Z)) (Some 7%Z)
         (Some "CONNECT")]
      (Returned tt) /\
  state_may_have_changed (fun id : Z => id) surprised_manager =
    mkRun (after_change surprised_manager)
      [StateChangedSignal (after_change surprised_manager) None None]
      (Returned tt) /\
  receive_line (fun id : Z => id) "ok" attention_manager =
    mkRun (after_change (set_override_state None attention_manager))
      [StateChangedSignal (after_change (set_override_state None attention_manager))
         None (Some "USER")]
      (Returned tt).
Proof.
  destruct (attribution_follows_specification (fun id : Z => id))
    as (H1 & H2 & H3 & H4).
  split; [|split; [|split]].
  - rewrite (H1 (resuming_manager 7%Z) (command_expectation 7%Z) eq_refl).
    vm_compute. reflexivity.
  - apply (H2 (resuming_manager 7%Z) (command_expectation 7%Z) CONNECT).
    + reflexivity.
    + discriminate.
    + vm_compute. reflexivity.
  - apply (H3 surprised_manager (expectation [(FINISHED, Some MARLIN)] [] None)).
    + reflexivity.
    + discriminate.
    + vm_compute. reflexivity.
    + vm_compute. reflexivity.
  - apply (H4 attention_manager); reflexivity.
Defined.

Lemma expectation_is_single_shot_witness :
  (exists command_id source,
      state_may_have_changed (fun id : Z => id) (resuming_manager 7%Z) =
        mkRun (after_change (resuming_manager 7%Z))
          [StateChangedSignal (after_change (resuming_manager 7%Z)) command_id source]
          (Returned tt) /\
      expected_state_change (after_change (resuming_manager 7%Z)) = None) /\
  (exists self' events,
      paused (fun id : Z => id) new_manager = mkRun self' events (Returned tt) /\
      expected_state_change self' = None).
Proof.
  destruct (expectation_is_single_shot (fun id : Z => id)) as (_ & H2 & H3).
  split.
  - apply (H2 (resuming_manager 7%Z)).
    + discriminate.
    + intros change [= <-] _. vm_compute. eauto.
  - apply (H3 (paused (fun id : Z => id)) new_manager).
    + unfold mutators. cbn. tauto.
    + reflexivity.
Defined.

Lemma ok_line_effect_witness :
  (exists self' events,
      ok (fun id : Z => id) failed_manager = mkRun self' events (Returned tt) /\
      override_state self' = None /\
      printing_state self' = None /\
      base_state self' = READY) /\
  receive_line (fun id : Z => id) "ok" finished_manager =
    mkRun (after_change (set_printing_state None finished_manager))
      [StateChangedSignal (after_change (set_printing_state None finished_manager))
         None (Some "MARLIN")]
      (Returned tt).
Proof.
  destruct (ok_line_effect (fun id : Z => id)) as (_ & _ & H3 & H4).
  split.
  - apply (H3 failed_manager). intros change H. discriminate H.
  - apply (H4 finished_manager); reflexivity.
Defined.

Lemma error_line_sets_override_witness :
  matches ERROR_REGEX ERROR_LINE = true /\
  receive_line (fun id : Z => id) ERROR_LINE new_manager =
    error (fun id : Z => id) new_manager /\
  override_state (final (receive_line (fun id : Z => id) ERROR_LINE new_manager))
    = Some ERROR.
Proof.
  split; [vm_compute; reflexivity|].
  apply (proj2 (error_line_sets_override (fun id : Z => id)) ERROR_LINE new_manager).
  vm_compute. reflexivity.
Defined.

(** The claim of C6 as the specification states it fails: a line that
    matches the pattern of the specification, and not the one of the code,
    runs no method and leaves the override slot empty. *)
Lemma error_prefix_alone_is_ignored :
  matches SPEC_ERROR_REGEX OTHER_ERROR_LINE = true /\
  matches ERROR_REGEX OTHER_ERROR_LINE = false /\
  receive_line (fun id : Z => id) OTHER_ERROR_LINE new_manager =
    mkRun new_manager [] (Returned tt) /\
  override_state
    (final (receive_line (fun id : Z => id) OTHER_ERROR_LINE new_manager)) = None.
Proof. vm_compute. repeat split; reflexivity. Qed.

Lemma poll_while_paused_changes_nothing_witness :
  update_state (fun id : Z => id) None ["Not SD printing"] paused_manager =
    mkRun paused_manager [SerialWrite "M27"] (Returned tt) /\
  printing (fun id : Z => id) paused_manager = mkRun paused_manager [] (Returned tt).
Proof.
  apply (poll_while_paused_changes_nothing (fun id : Z => id) paused_manager None
           ["Not SD printing"] [(1, "Not SD printing")]).
  - reflexivity.
  - reflexivity.
  - reflexivity.
  - vm_compute. reflexivity.
  - vm_compute. eauto.
Defined.

Lemma busy_poll_only_pings_witness :
  update_state (fun id : Z => id) (Some 40%Z) ["Not SD printing"] busy_manager =
    mkRun busy_manager [SerialWrite "PRUSA PING"] (Returned tt).
Proof.
  apply (busy_poll_only_pings (fun id : Z => id) busy_manager (Some 40%Z)
           ["Not SD printing"]).
  right. reflexivity.
Defined.

(** * The scenarios of the specification, run *)

Example patterns_on_lines :
  re_match OK_REGEX "ok" = Some [] /\
  re_match OK_REGEX "ok T:210" = None /\
  re_match SD_PRINTING_REGEX "Not SD printing" = Some [(1, "Not SD printing")] /\
  re_match SD_PRINTING_REGEX "1234:5678" = Some [(2, "1234:5678")] /\
  re_match SD_PRINTING_REGEX "12:" = None /\
  re_match START_PRINT_REGEX START_PRINT_LINE = Some [].
Proof. vm_compute. repeat split; reflexivity. Qed.

(** A remote resume: the command handler installs its expectation, the
    printer says that it resumed. *)
Example remote_resume_from_paused :
  signals (snd (run_inputs (fun id : Z => id)
                  [ExpectChange (command_expectation 7%Z); Line "// action:resumed"]
                  paused_manager))
  = [(PRINTING, Some 7%Z, Some "CONNECT")].
Proof. vm_compute. reflexivity. Qed.

Example local_pause_while_printing :
  signals (snd (run_inputs (fun id : Z => id) [Line "// action:paused"]
                  printing_manager))
  = [(PAUSED, None, Some "USER")].
Proof. vm_compute. reflexivity. Qed.

Example firmware_reported_finish :
  signals (snd (run_inputs (fun id : Z => id) [Line "Done printing file"; Line "ok"]
                  printing_manager))
  = [(FINISHED, None, Some "MARLIN"); (READY, None, Some "MARLIN")].
Proof. vm_compute. reflexivity. Qed.

Example attention_then_recovery :
  signals (snd (run_inputs (fun id : Z => id)
                  [Line "echo:busy: paused for user"; Line "ok"] new_manager))
  = [(ATTENTION, None, Some "USER"); (READY, None, Some "USER")].
Proof. vm_compute. reflexivity. Qed.

Example poll_driven_finish :
  signals (snd (run_inputs (fun id : Z => id) [Tick (Some 100%Z) ["12:34"]]
                  printing_manager))
  = [(FINISHED, None, Some "MARLIN")].
Proof. vm_compute. reflexivity. Qed.

Example poll_while_paused :
  run_inputs (fun id : Z => id) [Tick None ["Not SD printing"]] paused_manager
  = (paused_manager, [SerialWrite "M27"]).
Proof. vm_compute. reflexivity. Qed.

(** * The further properties at work *)

Lemma guarded_mutators_do_nothing_witness :
  paused (fun id : Z => id) new_manager = mkRun new_manager [] (Returned tt).
Proof.
  apply (guarded_mutators_do_nothing (fun id : Z => id) (paused (fun id : Z => id))
           paused_slots new_manager).
  - unfold mutators_with_slots. cbn. tauto.
  - reflexivity.
  - reflexivity.
Defined.

Lemma mutators_are_idempotent_witness :
  exists (self' : @StateManager Z) events,
    ok (fun id : Z => id) failed_manager = mkRun self' events (Returned tt) /\
    slots self' = ok_slots (slots (@failed_manager Z)) /\
    ok (fun id : Z => id) self' = mkRun self' [] (Returned tt).
Proof.
  apply (mutators_are_idempotent (fun id : Z => id) (ok (fun id : Z => id))
           ok_slots failed_manager).
  - unfold mutators_with_slots. cbn. tauto.
  - intros change H. discriminate H.
Defined.

Lemma override_masks_changes_witness :
  exists self' : @StateManager Z,
    finished (fun id : Z => id)
      (mkStateManager READY (Some PRINTING) (Some ATTENTION) false PRINTING
         ATTENTION (Some (command_expectation 7%Z)))
    = mkRun self' [] (Returned tt) /\
    current_state self' = ATTENTION /\
    expected_state_change self' = Some (command_expectation 7%Z).
Proof.
  apply (override_masks_changes (fun id : Z => id) (finished (fun id : Z => id))
           (mkStateManager READY (Some PRINTING) (Some ATTENTION) false PRINTING
              ATTENTION (Some (command_expectation 7%Z)))).
  - unfold masked_mutators. cbn. tauto.
  - reflexivity.
  - discriminate.
Defined.

Lemma ok_second_signal_is_unexpected_witness :
  exists state, (READY, @None Z, @None string) = (state, None, None).
Proof.
  apply (proj2 (ok_second_signal_is_unexpected (fun id : Z => id) failed_manager)
           (FINISHED, None, Some "USER") (READY, None, None)).
  vm_compute. reflexivity.
Defined.

Lemma unsolicited_changes_are_attributed_witness :
  signals (trace (printing (fun id : Z => id) new_manager))
  = [(PRINTING, None, Some "USER")].
Proof.
  assert (Hw : well_formed (@new_manager Z)).
  { apply well_formed_of_cases; cbn; tauto. }
  destruct (unsolicited_changes_are_attributed (fun id : Z => id) new_manager
              Hw eq_refl eq_refl) as [H _].
  destruct (H eq_refl) as [Hp _]. exact (Hp eq_refl).
Defined.

Lemma sourced_histories_never_raise_witness :
  Forall (fun r => r = Returned tt)
    (run_results (fun id : Z => id)
       [ExpectChange (command_expectation 7%Z); Line "// action:resumed";
        Line "// action:paused"] paused_manager) /\
  chain (current_state (@paused_manager Z))
    (changes (snd (run_inputs (fun id : Z => id)
                     [ExpectChange (command_expectation 7%Z);
                      Line "// action:resumed"; Line "// action:paused"]
                     paused_manager)))
    (current_state (fst (run_inputs (fun id : Z => id)
                           [ExpectChange (command_expectation 7%Z);
                            Line "// action:resumed"; Line "// action:paused"]
                           paused_manager))).
Proof.
  apply (sourced_histories_never_raise (fun id : Z => id)).
  - intros change H. discriminate H.
  - repeat (apply List.Forall_cons; [|]); try exact I; [|apply List.Forall_nil].
    intros last curr _. vm_compute. eauto.
Defined.

Lemma unanswered_poll_changes_nothing_witness :
  update_state (fun id : Z => id) None ["ok"] printing_manager =
  mkRun printing_manager [InsertProgress; SerialWrite "M27"] (Returned tt).
Proof.
  apply (unanswered_poll_changes_nothing (fun id : Z => id) printing_manager None
           ["ok"]).
  - reflexivity.
  - vm_compute. reflexivity.
  - discriminate.
Defined.

Lemma answered_poll_follows_the_printer_witness :
  signals (trace (update_state (fun id : Z => id) (Some 40%Z) ["Not SD printing"]
                    printing_manager))
  = [(READY, None, Some "MARLIN")].
Proof.
  assert (Hw : well_formed (@printing_manager Z)).
  { apply well_formed_of_cases; cbn; tauto. }
  destruct (answered_poll_follows_the_printer (fun id : Z => id) printing_manager
              (Some 40%Z) ["Not SD printing"] [(1, "Not SD printing")]
              Hw eq_refl eq_refl eq_refl eq_refl) as [H _].
  - discriminate.
  - vm_compute. reflexivity.
  - apply H; [vm_compute; eauto | left; reflexivity].
Defined.

Lemma each_line_runs_one_handler_witness :
  receive_line (fun id : Z => id) "// action:paused" printing_manager =
    paused (fun id : Z => id) printing_manager /\
  receive_line (fun id : Z => id) "T:210.0 /210.0 B:60.0 /60.0" printing_manager =
    mkRun printing_manager [] (Returned tt).
Proof.
  destruct (each_line_runs_one_handler (fun id : Z => id)) as [H1 H2].
  split.
  - apply (H1 PAUSED_REGEX).
    + unfold output_handlers. cbn. tauto.
    + vm_compute. reflexivity.
  - apply H2. intros pattern handler Hin.
    unfold output_handlers in Hin. cbn in Hin.
    repeat (destruct Hin as [Hin | Hin];
            [apply pair_equal_spec in Hin; destruct Hin as [<- _];
             vm_compute; reflexivity|]).
    destruct Hin.
Defined.

Lemma anchored_patterns_match_exactly_witness :
  matches OK_REGEX ("ok" +:+ String newline "") = true.
Proof.
  apply (proj1 (anchored_patterns_match_exactly ("ok" +:+ String newline ""))).
  right. reflexivity.
Defined.

Lemma sd_reply_fills_one_group_witness :
  (exists line, In line ["echo:busy: processing"; "12:34"] /\
                re_match SD_PRINTING_REGEX line = Some [(2, "12:34")]) /\
  ((fst (groups [(2, "12:34")]) = Some "Not SD printing" /\
    snd (groups [(2, "12:34")]) = None) \/
   (fst (groups [(2, "12:34")]) = None /\ is_Some (snd (groups [(2, "12:34")])))).
Proof.
  apply (sd_reply_fills_one_group ["echo:busy: processing"; "12:34"]).
  vm_compute. reflexivity.
Defined.


Lemma wait_for_instruction_ends_at_first_stop_witness :
  wait_for_instruction (fun _ => true) (fun turn => Nat.eqb turn 2) 10 0 = Some 3.
Proof.
  apply (proj1 (wait_for_instruction_ends_at_first_stop
                  (fun _ => true) (fun turn => Nat.eqb turn 2)) 2 10).
  - intros i Hi. split; [reflexivity|].
    destruct i as [|[|i]]; [reflexivity | reflexivity | lia].
  - right. reflexivity.
  - lia.
Defined.

Lemma command_expectation_claims_next_change_witness :
  exists (self' : @StateManager Z) events,
    error (fun id : Z => id) (resuming_manager 7%Z)
    = mkRun self' events (Returned tt) /\
    (signals events = [] /\
     expected_state_change self' = Some (command_expectation 7%Z) \/
     exists state rest,
       signals events = (state, Some 7%Z, Some "CONNECT") :: rest).
Proof.
  apply (command_expectation_claims_next_change (fun id : Z => id)
           (error (fun id : Z => id)) (resuming_manager 7%Z)
           (command_expectation 7%Z) 7%Z CONNECT).
  - unfold mutators. cbn. tauto.
  - reflexivity.
  - reflexivity.
  - reflexivity.
  - reflexivity.
  - reflexivity.
Defined.

Lemma polled_finish_discards_expectation_witness :
  exists rest,
    signals (trace (update_state (fun id : Z => id) (Some 100%Z) ["12:34"]
                      (set_expected_state_change (Some (command_expectation 7%Z))
                         printing_manager)))
    = (FINISHED, None, Some "MARLIN") :: rest.
Proof.
  apply (polled_finish_discards_expectation (fun id : Z => id)
           (set_expected_state_change (Some (command_expectation 7%Z))
              printing_manager) ["12:34"]); reflexivity.
Defined.

(** A busy printer in error after a finished print that says [ok]: the
    cleared override is attributed, the freed base is not. *)
Example recovery_of_a_busy_printer :
  signals (trace (receive_line (fun id : Z => id) "ok" failed_manager))
  = [(FINISHED, None, Some "USER"); (READY, None, None)].
Proof. vm_compute. reflexivity. Qed.

(** An error of the printer while a remote resume is awaited is attributed
    to the command. *)
Example error_during_a_command :
  signals (snd (run_inputs (fun id : Z => id)
                  [ExpectChange (command_expectation 7%Z);
                   Line ERROR_LINE] paused_manager))
  = [(ERROR, Some 7%Z, Some "CONNECT")].
Proof. vm_compute. reflexivity. Qed.

Example truth_words :
  strtobool "TRUE" = inr true /\ strtobool "off" = inr false /\
  strtobool "maybe" = inl ValueError.
Proof. vm_compute. repeat split; reflexivity. Qed.

Example config_without_tls :
  load_connect_config
    {[ "connect" := {[ "address" := "connect.example"; "port" := "8080";
                       "token" := "secret" ]} ]}
    [] class_definitions
  = ([], inr (Returned (mkConnectAPI "connect.example" "8080"
                          "http://connect.example:8080" "secret"))).
Proof. vm_compute. reflexivity. Qed.

Example config_without_token :
  load_connect_config
    {[ "connect" := {[ "address" := "connect.example"; "port" := "8080" ]} ]}
    [] class_definitions
  = ([Instruction "M117 Bad Old Buddy config" false], inl (KeyError "token")).
Proof. vm_compute. reflexivity. Qed.
